(** * GCAM core: period-indexed containers and calibration predicate

    A shallow embedding of [util/base/include/time_vector.h]
    ([TimeVectorBase], [YearVector], [PeriodVector]) over an explicit model
    of the free store, followed by the calibration predicate of
    [containers/include/world.h] and the logit shares of
    [sectors/include/subsector.h].

    Conventions.
    - [unsigned int] and [int] are 32 bits wide, [size_t] is 64 bits wide
      (LP64).  Values are carried as [Z]; every conversion and every
      unsigned operation writes its wrap-around out.
    - A [T*] is either a position inside an array created by [new T[n]]
      ([Ptr b ofs]) or an integer used where a pointer is expected
      ([IntPtr n]).
    - A member function that can abort or run into undefined behaviour
      returns an [outcome]. *)

From Stdlib Require Import ZArith Bool Lia Reals Lra.
From Stdlib Require Floats.PrimFloat Floats.FloatOps Floats.SpecFloat.
From stdpp Require Import base option list gmap fin_maps.

Local Open Scope Z_scope.

Module TimeVector.

(** ** Machine integers *)

Definition UINT_MAX : Z := 4294967295.
Definition INT_MAX : Z := 2147483647.
Definition SIZE_MAX : Z := 18446744073709551615.

(** Conversion to [unsigned int]. *)
Definition to_uint (z : Z) : Z := z mod (UINT_MAX + 1).

(** Conversion to [size_t]. *)
Definition to_size_t (z : Z) : Z := z mod (SIZE_MAX + 1).

(** Conversion to [int] (two's complement, as every supported compiler
    does it). *)
Definition to_int (z : Z) : Z := (z + (INT_MAX + 1)) mod (UINT_MAX + 1) - (INT_MAX + 1).

(** ** Outcomes of a call *)

Inductive outcome (A : Type) : Type :=
| Ret (a : A)          (* the call returns *)
| AssertionFailed      (* an [assert] of a debug build aborts the run *)
| Undefined.           (* the call leaves defined behaviour *)

Arguments Ret {A} a.
Arguments AssertionFailed {A}.
Arguments Undefined {A}.

Definition bind {A B : Type} (m : outcome A) (k : A -> outcome B) : outcome B :=
  match m with
  | Ret a => k a
  | AssertionFailed => AssertionFailed
  | Undefined => Undefined
  end.

Notation "'do' x <- m ; k" := (bind m (fun x => k))
  (at level 10, x name, m at level 100, k at level 200).

(** The two ways the header is compiled: with [assert] active, or with
    [NDEBUG] defined. *)
Inductive build : Type := Debug | Release.

(** [assert( e )]: with [NDEBUG] the expression is not evaluated at all. *)
Definition assert_ (bld : build) (e : outcome bool) : outcome unit :=
  match bld with
  | Release => Ret tt
  | Debug => do c <- e; if c then Ret tt else AssertionFailed
  end.

(** ** Pointers *)

Definition block : Type := positive.

Inductive ptr : Type :=
| Ptr (b : block) (ofs : Z)   (* element [ofs] of the array [b] *)
| IntPtr (n : Z).             (* an integer in a pointer's place *)

Arguments Ptr b%_positive ofs%_Z.

Definition ptr_add (p : ptr) (k : Z) : ptr :=
  match p with
  | Ptr b ofs => Ptr b (ofs + k)
  | IntPtr n => IntPtr (n + k)
  end.

(** [last - first] for two pointers into one array. *)
Definition ptr_diff (last first : ptr) : option Z :=
  match last, first with
  | Ptr b ofs, Ptr b' ofs' => if decide (b = b') then Some (ofs - ofs') else None
  | _, _ => None
  end.

(** Address of an object ([this], [&aOther]). *)
Definition addr : Type := positive.

(** [TimeVectorBaseIter<Value>]: a [boost::iterator_adaptor] over [Value*];
    its constructor [TimeVectorBaseIter( Value* aData )] stores the pointer
    it is given.  [iterator] and [const_iterator] differ only in the
    constness of [Value]. *)
Record TimeVectorBaseIter : Type := Iter { iter_base : ptr }.

(** [it + k], as [iterator_adaptor] defines it for a random access
    iterator: the pointer moves. *)
Definition iter_add (it : TimeVectorBaseIter) (k : Z) : TimeVectorBaseIter :=
  Iter (ptr_add (iter_base it) k).

(** [TimeVectorBase<T>]: the two data members, and the address the object
    lives at. *)
Record TimeVectorBase : Type := {
  this_addr : addr;
  mData : ptr;      (* T* mData *)
  mSize : Z         (* size_t mSize *)
}.

(** [YearVector<T>]: a [TimeVectorBase<T>] with its two end points. *)
Record YearVector : Type := {
  yv_base : TimeVectorBase;
  mStartYear : Z;   (* unsigned int *)
  mEndYear : Z      (* unsigned int *)
}.

(** [PeriodVector<T>] adds no member. *)
Record PeriodVector : Type := { pv_base : TimeVectorBase }.

(** ** The element type [double] *)

Definition double : Type := PrimFloat.float.

(** Modelled from the spec: [isValidNumber] of [util/base/include/util.h],
    which is not among the sources; the spec calls a stored number valid
    when it is "non-NaN, non-infinite". *)
Definition isValidNumber_double (x : double) : bool :=
  negb (PrimFloat.is_nan x) && negb (PrimFloat.is_infinity x).

Definition double_zero : double := PrimFloat.zero.
Definition double_one : double := PrimFloat.one.
Definition double_nan : double := PrimFloat.nan.

(** [operator==] on [double]: the IEEE comparison. *)
Definition double_eqb (x y : double) : bool := PrimFloat.eqb x y.

Section WithElements.

Local Set Default Proof Using "Type".

(** The element type, its default constructor [T()], its [operator==],
    [isValidNumber] of [util/base/include/util.h] and the period count
    [scenario->getModeltime()->getmaxper()]: none of them is defined in
    this header. *)
Variable T : Type.
Variable T_default : T.
Variable T_eqb : T -> T -> bool.
Variable isValidNumber : T -> bool.
Variable maxper : Z.

(** ** The free store *)

Record heap : Type := {
  arrays : gmap block (list T);   (* the arrays that are alive *)
  nextblock : block               (* the next array [new] hands out *)
}.

Definition empty_heap : heap := {| arrays := ∅; nextblock := 1%positive |}.

(** [*p] as an rvalue. *)
Definition load (h : heap) (p : ptr) : outcome T :=
  match p with
  | Ptr b ofs =>
      match arrays h !! b with
      | Some l =>
          if 0 <=? ofs then
            match l !! Z.to_nat ofs with
            | Some x => Ret x
            | None => Undefined
            end
          else Undefined
      | None => Undefined
      end
  | IntPtr _ => Undefined
  end.

(** [*it]: the adaptor dereferences its pointer. *)
Definition deref (h : heap) (it : TimeVectorBaseIter) : outcome T :=
  load h (iter_base it).

(** [*p = x]. *)
Definition store (h : heap) (p : ptr) (x : T) : outcome heap :=
  match p with
  | Ptr b ofs =>
      match arrays h !! b with
      | Some l =>
          if (0 <=? ofs) && (ofs <? Z.of_nat (length l)) then
            Ret {| arrays := <[b := <[Z.to_nat ofs := x]> l]> (arrays h);
                   nextblock := nextblock h |}
          else Undefined
      | None => Undefined
      end
  | IntPtr _ => Undefined
  end.

(** [new T[ n ]] followed by
    [std::uninitialized_fill( &mData[ 0 ], &mData[ 0 ] + n, v )]: a fresh
    array of [n] slots, every slot holding [v]. *)
Definition new_filled (h : heap) (n : Z) (v : T) : heap * ptr :=
  ({| arrays := <[nextblock h := replicate (Z.to_nat n) v]> (arrays h);
      nextblock := Pos.succ (nextblock h) |},
   Ptr (nextblock h) 0).

(** [delete[] p]. *)
Definition delete_array (h : heap) (p : ptr) : outcome heap :=
  match p with
  | Ptr b ofs =>
      if (ofs =? 0) && bool_decide (is_Some (arrays h !! b)) then
        Ret {| arrays := delete b (arrays h); nextblock := nextblock h |}
      else Undefined
  | IntPtr _ => Undefined
  end.

(** [std::copy( first, last, dest )]. *)
Fixpoint copy_loop (n : nat) (src dst : ptr) (h : heap) : outcome heap :=
  match n with
  | O => Ret h
  | S k =>
      do x <- load h src;
      do h' <- store h dst x;
      copy_loop k (ptr_add src 1) (ptr_add dst 1) h'
  end.

Definition std_copy (first last dest : TimeVectorBaseIter) (h : heap) : outcome heap :=
  match ptr_diff (iter_base last) (iter_base first) with
  | Some n =>
      if 0 <=? n then copy_loop (Z.to_nat n) (iter_base first) (iter_base dest) h
      else Undefined
  | None => Undefined
  end.

(** [std::equal( first, last, first2 )], comparing with [T]'s [operator==]. *)
Fixpoint equal_loop (n : nat) (p q : ptr) (h : heap) : outcome bool :=
  match n with
  | O => Ret true
  | S k =>
      do x <- load h p;
      do y <- load h q;
      if T_eqb x y then equal_loop k (ptr_add p 1) (ptr_add q 1) h
      else Ret false
  end.

Definition std_equal (first last first2 : TimeVectorBaseIter) (h : heap) : outcome bool :=
  match ptr_diff (iter_base last) (iter_base first) with
  | Some n =>
      if 0 <=? n then equal_loop (Z.to_nat n) (iter_base first) (iter_base first2) h
      else Undefined
  | None => Undefined
  end.

(** ** TimeVectorBase *)

(** [init( aSize, aDefaultValue )]: sets [mSize], allocates [mData] and
    fills it.  It returns the new store and the two members. *)
Definition init (aSize : Z) (aDefaultValue : T) (h : heap) : heap * (ptr * Z) :=
  let mSize' := aSize in
  let '(h', mData') := new_filled h mSize' aDefaultValue in
  (h', (mData', mSize')).

(** [TimeVectorBase( aSize, aDefaultValue )], constructing at [this]. *)
Definition TimeVectorBase_ctor (this : addr) (aSize : Z) (aDefaultValue : T)
    (h : heap) : heap * TimeVectorBase :=
  let '(h', (d, n)) := init aSize aDefaultValue h in
  (h', {| this_addr := this; mData := d; mSize := n |}).

(** [clear()]: [delete[] mData]. *)
Definition clear (v : TimeVectorBase) (h : heap) : outcome heap :=
  delete_array h (mData v).

Definition size (v : TimeVectorBase) : Z := mSize v.

Definition begin (v : TimeVectorBase) : TimeVectorBaseIter := Iter (mData v).

Definition end_ (v : TimeVectorBase) : TimeVectorBaseIter :=
  Iter (ptr_add (mData v) (size v)).

(** [last() const]: [mData + std::max( int( size() ) - 1, 0 )].  The
    subtraction is written without wrap-around: it leaves the range of
    [int] only for a size that converts to [INT_MIN], where it is an
    overflow of signed arithmetic. *)
Definition last_const (v : TimeVectorBase) : TimeVectorBaseIter :=
  Iter (ptr_add (mData v) (Z.max (to_int (size v) - 1) 0)).

(** [last()]: [mData + std::max( static_cast<int>( size() ) - 1, 0 )]. *)
Definition last (v : TimeVectorBase) : TimeVectorBaseIter :=
  Iter (ptr_add (mData v) (Z.max (to_int (size v) - 1) 0)).

(** Copy constructor, constructing at [this] from [aOther].  [init] takes
    an [unsigned int], so [aOther.mSize] is converted. *)
Definition TimeVectorBase_copy (this : addr) (aOther : TimeVectorBase)
    (h : heap) : outcome (heap * TimeVectorBase) :=
  let '(h1, (d, n)) := init (to_uint (mSize aOther)) T_default h in
  let v := {| this_addr := this; mData := d; mSize := n |} in
  do h2 <- std_copy (begin aOther) (end_ aOther) (begin v) h1;
  Ret (h2, v).

(** [operator=( aOther )]; it returns the store and the object assigned to. *)
Definition operator_assign (v aOther : TimeVectorBase) (h : heap)
    : outcome (heap * TimeVectorBase) :=
  if negb (Pos.eqb (this_addr v) (this_addr aOther)) then
    do h0 <- clear v h;
    let '(h1, (d, n)) := init (to_uint (size aOther)) T_default h0 in
    let v' := {| this_addr := this_addr v; mData := d; mSize := n |} in
    do h2 <- std_copy (begin aOther) (end_ aOther) (begin v') h1;
    Ret (h2, v')
  else Ret (h, v).

(** [operator==( aOther )]. *)
Definition operator_eq (v aOther : TimeVectorBase) (h : heap) : outcome bool :=
  if size v =? size aOther then std_equal (begin v) (end_ v) (begin aOther) h
  else Ret false.

(** [operator!=( aOther )]. *)
Definition operator_ne (v aOther : TimeVectorBase) (h : heap) : outcome bool :=
  do r <- operator_eq v aOther h; Ret (negb r).

(** [assign( aPositions, aValue )]: the loop
    [for( unsigned int i = 0; i < aPositions; ++i ) mData[ i ] = aValue]. *)
Fixpoint assign_loop (n : nat) (d : ptr) (i : Z) (aValue : T) (h : heap)
    : outcome heap :=
  match n with
  | O => Ret h
  | S k =>
      do h' <- store h (ptr_add d i) aValue;
      assign_loop k d (i + 1) aValue h'
  end.

Definition assign (bld : build) (v : TimeVectorBase) (aPositions : Z)
    (aValue : T) (h : heap) : outcome heap :=
  do _ <- assert_ bld (Ret (aPositions <=? size v));
  assign_loop (Z.to_nat aPositions) (mData v) 0 aValue h.

(** [return mData[ i ]] for a function returning [T&]: the reference is
    bound to an element that exists. *)
Definition element_ref (h : heap) (d : ptr) (i : Z) : outcome ptr :=
  do _ <- load h (ptr_add d i); Ret (ptr_add d i).

(** ** YearVector *)

(** [YearVector( aStartYear, aEndYear, aDefaultValue )]: the size is
    computed in [unsigned int]. *)
Definition YearVector_ctor (this : addr) (aStartYear aEndYear : Z)
    (aDefaultValue : T) (h : heap) : heap * YearVector :=
  let '(h', b) :=
    TimeVectorBase_ctor this (to_uint (aEndYear - aStartYear + 1)) aDefaultValue h in
  (h', {| yv_base := b; mStartYear := aStartYear; mEndYear := aEndYear |}).

(** [operator[]( aYear )], both overloads: [aYear] is a [size_t], and so is
    [aYear - mStartYear]. *)
Definition YearVector_index (bld : build) (v : YearVector) (aYear : Z) (h : heap)
    : outcome ptr :=
  do _ <- assert_ bld (Ret ((mStartYear v <=? aYear) && (aYear <=? mEndYear v)));
  do _ <- assert_ bld
            (do x <- load h (ptr_add (mData (yv_base v)) (to_size_t (aYear - mStartYear v)));
             Ret (isValidNumber x));
  element_ref h (mData (yv_base v)) (to_size_t (aYear - mStartYear v)).

(** [find( aYear ) const].  In range the iterator is built from the
    [unsigned int] value [aYear - mStartYear] alone.  (The overload for a
    mutable vector passes that value and [this] to a two-argument
    constructor, which [TimeVectorBaseIter] does not declare.)  An
    [unsigned int] does not convert to the [Value*] that the constructor of
    the iterator takes, so the member cannot be instantiated as written:
    the definition records the expression each branch is written to return,
    and serves only to show that the branch for a year in range does not
    name the slot of the year. *)
Definition find (v : YearVector) (aYear : Z) : TimeVectorBaseIter :=
  if (aYear <? mStartYear v) || (mEndYear v <? aYear) then end_ (yv_base v)
  else Iter (IntPtr (to_uint (aYear - mStartYear v))).

Definition getStartYear (v : YearVector) : Z := mStartYear v.
Definition getEndYear (v : YearVector) : Z := mEndYear v.

(** [YearVector::operator=( aOther )]: the two end points, then the base
    class assignment. *)
Definition YearVector_assign (v aOther : YearVector) (h : heap)
    : outcome (heap * YearVector) :=
  if negb (Pos.eqb (this_addr (yv_base v)) (this_addr (yv_base aOther))) then
    do r <- operator_assign (yv_base v) (yv_base aOther) h;
    Ret (r.1, {| yv_base := r.2;
                 mStartYear := mStartYear aOther;
                 mEndYear := mEndYear aOther |})
  else Ret (h, v).

(** ** PeriodVector *)

(** [PeriodVector( aDefaultValue )]: [getmaxper()] is converted to the
    [unsigned int] the base constructor takes. *)
Definition PeriodVector_ctor (this : addr) (aDefaultValue : T) (h : heap)
    : heap * PeriodVector :=
  let '(h', b) := TimeVectorBase_ctor this (to_uint maxper) aDefaultValue h in
  (h', {| pv_base := b |}).

(** [operator[]( aIndex )], both overloads. *)
Definition PeriodVector_index (bld : build) (v : PeriodVector) (aIndex : Z) (h : heap)
    : outcome ptr :=
  do _ <- assert_ bld (Ret (aIndex <? size (pv_base v)));
  do _ <- assert_ bld
            (do x <- load h (ptr_add (mData (pv_base v)) aIndex);
             Ret (isValidNumber x));
  element_ref h (mData (pv_base v)) aIndex.

(** ** What an object owns *)

(** The elements of [v], in order, when its array is alive. *)
Definition contents (h : heap) (v : TimeVectorBase) : option (list T) :=
  match mData v with
  | Ptr b ofs => if ofs =? 0 then arrays h !! b else None
  | IntPtr _ => None
  end.

(** [v] is a constructed object of the store [h]: [mData] is the start of
    a live array of [mSize] elements that [new] handed out, and [mSize]
    came through an [unsigned int]. *)
Definition constructed (h : heap) (v : TimeVectorBase) : Prop :=
  exists b l,
    mData v = Ptr b 0 /\ arrays h !! b = Some l /\
    Z.of_nat (length l) = mSize v /\ mSize v <= UINT_MAX /\
    (b < nextblock h)%positive.

(** ** Writes by a caller *)

(** A caller writing through references or iterators into the array that
    starts at [d]: [d[ i1 ] = x1; d[ i2 ] = x2; ...]. *)
Fixpoint store_all (h : heap) (d : ptr) (ws : list (Z * T)) : outcome heap :=
  match ws with
  | [] => Ret h
  | (i, x) :: ws' => do h' <- store h (ptr_add d i) x; store_all h' d ws'
  end.

(** ** The virtual [operator[]] *)

(** [TimeVectorBase::operator[]] is pure virtual: an object is a
    [YearVector] or a [PeriodVector], and the call goes to its class. *)
Inductive derived : Type :=
| IsYearVector (v : YearVector)
| IsPeriodVector (v : PeriodVector).

Definition operator_index (bld : build) (v : derived) (aIndex : Z) (h : heap)
    : outcome ptr :=
  match v with
  | IsYearVector yv => YearVector_index bld yv aIndex h
  | IsPeriodVector pv => PeriodVector_index bld pv aIndex h
  end.

(** The bounds of the argument: years for a [YearVector], positions for a
    [PeriodVector]. *)
Definition in_bounds (v : derived) (aIndex : Z) : Prop :=
  match v with
  | IsYearVector yv => mStartYear yv <= aIndex <= mEndYear yv
  | IsPeriodVector pv => 0 <= aIndex < size (pv_base pv)
  end.

(** The element an in-bounds argument stands for. *)
Definition slot (v : derived) (aIndex : Z) : ptr :=
  match v with
  | IsYearVector yv => ptr_add (mData (yv_base yv)) (aIndex - mStartYear yv)
  | IsPeriodVector pv => ptr_add (mData (pv_base pv)) aIndex
  end.

(** A [YearVector] whose base object is constructed and sized for its
    year range. *)
Definition YearVector_constructed (h : heap) (v : YearVector) : Prop :=
  constructed h (yv_base v) /\
  mSize (yv_base v) = mEndYear v - mStartYear v + 1.

(** [c] is a copy of [a] with storage of its own: same size, the elements
    [la] of [a] in an array other than [a]'s, and nothing a caller writes
    into [c] (through references or iterators, or with [assign]) changes
    the elements of [a]. *)
Definition independent_copy (h : heap) (c a : TimeVectorBase) (la : list T) : Prop :=
  size c = size a /\
  contents h c = Some la /\ contents h a = Some la /\
  constructed h c /\ mData c <> mData a /\
  (forall ws h', store_all h (mData c) ws = Ret h' -> contents h' a = Some la) /\
  (forall bld n x h', assign bld c n x h = Ret h' -> contents h' a = Some la).

Definition derived_constructed (h : heap) (v : derived) : Prop :=
  match v with
  | IsYearVector yv => YearVector_constructed h yv
  | IsPeriodVector pv => constructed h (pv_base pv)
  end.

(** ** Destruction, and conversion to [std::vector<double>] *)

(** [~TimeVectorBase()]: [clear()]. *)
Definition TimeVectorBase_dtor (v : TimeVectorBase) (h : heap) : outcome heap :=
  clear v h.

(** The conversion of a [T] to [double] that [std::copy] applies when it
    assigns into a [std::vector<double>]: a property of [T], not of this
    header. *)
Variable T_to_double : T -> double.

(** [std::copy( first, last, convVector.begin() )] into a
    [std::vector<double>], carried as the list of its elements: element
    [i] of the vector is assigned the converted source element. *)
Fixpoint convert_loop (n : nat) (src : ptr) (i : nat) (convVector : list double)
    (h : heap) : outcome (list double) :=
  match n with
  | O => Ret convVector
  | S k =>
      do x <- load h src;
      if bool_decide (i < length convVector)%nat then
        convert_loop k (ptr_add src 1) (S i) (<[i := T_to_double x]> convVector) h
      else Undefined
  end.

(** [convertToVector( aTimeVector )]: a vector of [size()] zeros, then the
    copy from [begin()] to [end()]. *)
Definition convertToVector (aTimeVector : PeriodVector) (h : heap)
    : outcome (list double) :=
  let convVector :=
    replicate (Z.to_nat (size (pv_base aTimeVector))) double_zero in
  match ptr_diff (iter_base (end_ (pv_base aTimeVector)))
                 (iter_base (begin (pv_base aTimeVector))) with
  | Some n =>
      if 0 <=? n then
        convert_loop (Z.to_nat n) (iter_base (begin (pv_base aTimeVector))) 0
                     convVector h
      else Undefined
  | None => Undefined
  end.

(** What a build checks about the value it finds in the slot. *)
Definition passes (bld : build) (x : T) : bool :=
  match bld with
  | Debug => isValidNumber x
  | Release => true
  end.

(** * Properties *)

(** ** Integer conversions *)

Lemma to_uint_small z : 0 <= z <= UINT_MAX -> to_uint z = z.
Proof. intros Hz. unfold to_uint, UINT_MAX in *. apply Z.mod_small. lia. Qed.

Lemma to_size_t_small z : 0 <= z <= SIZE_MAX -> to_size_t z = z.
Proof. intros Hz. unfold to_size_t, SIZE_MAX in *. apply Z.mod_small. lia. Qed.

Lemma to_int_small z : 0 <= z <= INT_MAX -> to_int z = z.
Proof.
  intros Hz. unfold to_int, INT_MAX, UINT_MAX in *.
  rewrite Z.mod_small; lia.
Qed.

Lemma ptr_add_0 p : ptr_add p 0 = p.
Proof. destruct p; simpl; f_equal; lia. Qed.

(** ** Reading and writing the store *)

Lemma load_elem h b l i x :
  arrays h !! b = Some l -> 0 <= i -> l !! Z.to_nat i = Some x ->
  load h (Ptr b i) = Ret x.
Proof.
  intros Hb Hi Hx. unfold load. rewrite Hb.
  destruct (0 <=? i) eqn:E; [| lia]. by rewrite Hx.
Qed.

Lemma load_Ret h p x :
  load h p = Ret x ->
  exists b i l, p = Ptr b i /\ arrays h !! b = Some l /\ 0 <= i /\
                l !! Z.to_nat i = Some x.
Proof.
  unfold load. destruct p as [b i | n]; [| discriminate].
  destruct (arrays h !! b) as [l |] eqn:Hb; [| discriminate].
  destruct (0 <=? i) eqn:E; [| discriminate].
  destruct (l !! Z.to_nat i) as [y |] eqn:Hy; [| discriminate].
  intros [= ->]. exists b, i, l. repeat split; auto. lia.
Qed.

Lemma store_elem h b l i x :
  arrays h !! b = Some l -> 0 <= i < Z.of_nat (length l) ->
  store h (Ptr b i) x =
    Ret {| arrays := <[b := <[Z.to_nat i := x]> l]> (arrays h);
           nextblock := nextblock h |}.
Proof.
  intros Hb Hi. unfold store. rewrite Hb.
  destruct (0 <=? i) eqn:E1; [| lia].
  destruct (i <? Z.of_nat (length l)) eqn:E2; [| lia]. done.
Qed.

Lemma store_Ret h p x h' :
  store h p x = Ret h' ->
  exists b i l, p = Ptr b i /\ arrays h !! b = Some l /\
                0 <= i < Z.of_nat (length l) /\
                h' = {| arrays := <[b := <[Z.to_nat i := x]> l]> (arrays h);
                        nextblock := nextblock h |}.
Proof.
  unfold store. destruct p as [b i | n]; [| discriminate].
  destruct (arrays h !! b) as [l |] eqn:Hb; [| discriminate].
  destruct (0 <=? i) eqn:E1; [| discriminate].
  destruct (i <? Z.of_nat (length l)) eqn:E2; [| discriminate].
  intros [= <-]. exists b, i, l. repeat split; auto; lia.
Qed.

(** A successful write is read back, and leaves every other array alone. *)
Lemma load_store_same h p x h' : store h p x = Ret h' -> load h' p = Ret x.
Proof.
  intros (b & i & l & -> & Hb & Hi & ->)%store_Ret.
  eapply load_elem; simpl; [apply lookup_insert_eq | lia |].
  apply list_lookup_insert_eq. lia.
Qed.

Lemma store_other_array h b i x h' b' :
  store h (Ptr b i) x = Ret h' -> b' <> b -> arrays h' !! b' = arrays h !! b'.
Proof.
  intros (b0 & i0 & l & [= <- <-] & Hb & Hi & ->)%store_Ret Hne.
  simpl. by rewrite lookup_insert_ne.
Qed.

(** A write changes no object's size: constructed objects stay
    constructed. *)
Lemma store_constructed h p x h' v :
  store h p x = Ret h' -> constructed h v -> constructed h' v.
Proof.
  intros (b & i & l & -> & Hb & Hi & ->)%store_Ret (bv & lv & Hd & Hbv & Hl & Hmax & Hf).
  destruct (decide (bv = b)) as [-> | Hne].
  - exists b, (<[Z.to_nat i := x]> l). cbn [arrays nextblock].
    rewrite lookup_insert_eq, length_insert.
    repeat split; auto. congruence.
  - exists bv, lv. cbn [arrays nextblock].
    rewrite lookup_insert_ne by auto. repeat split; auto.
Qed.

(** ** Construction *)

Lemma TimeVectorBase_ctor_members this n d h :
  (TimeVectorBase_ctor this n d h).2 =
    {| this_addr := this; mData := Ptr (nextblock h) 0; mSize := n |}.
Proof. reflexivity. Qed.

Lemma TimeVectorBase_ctor_store this n d h :
  (TimeVectorBase_ctor this n d h).1 =
    {| arrays := <[nextblock h := replicate (Z.to_nat n) d]> (arrays h);
       nextblock := Pos.succ (nextblock h) |}.
Proof. reflexivity. Qed.

Lemma TimeVectorBase_ctor_constructed this n d h :
  0 <= n <= UINT_MAX ->
  constructed (TimeVectorBase_ctor this n d h).1 (TimeVectorBase_ctor this n d h).2.
Proof.
  intros Hn. rewrite TimeVectorBase_ctor_members, TimeVectorBase_ctor_store.
  exists (nextblock h), (replicate (Z.to_nat n) d). simpl.
  repeat split; [apply lookup_insert_eq | rewrite length_replicate; lia | lia | lia].
Qed.

Lemma TimeVectorBase_ctor_contents this n d h :
  contents (TimeVectorBase_ctor this n d h).1 (TimeVectorBase_ctor this n d h).2
  = Some (replicate (Z.to_nat n) d).
Proof.
  rewrite TimeVectorBase_ctor_members, TimeVectorBase_ctor_store.
  unfold contents. simpl. apply lookup_insert_eq.
Qed.

Lemma YearVector_ctor_members this s e d h :
  (YearVector_ctor this s e d h).2 =
    {| yv_base := (TimeVectorBase_ctor this (to_uint (e - s + 1)) d h).2;
       mStartYear := s; mEndYear := e |}.
Proof. reflexivity. Qed.

Lemma YearVector_ctor_store this s e d h :
  (YearVector_ctor this s e d h).1 =
    (TimeVectorBase_ctor this (to_uint (e - s + 1)) d h).1.
Proof. reflexivity. Qed.

Lemma YearVector_ctor_constructed this s e d h :
  s <= e -> e - s + 1 <= UINT_MAX ->
  YearVector_constructed (YearVector_ctor this s e d h).1 (YearVector_ctor this s e d h).2.
Proof.
  intros Hse Hr. rewrite YearVector_ctor_members, YearVector_ctor_store.
  split; simpl.
  - apply TimeVectorBase_ctor_constructed.
    rewrite to_uint_small; lia.
  - rewrite to_uint_small; lia.
Qed.

Lemma PeriodVector_ctor_constructed this d h :
  0 <= maxper <= UINT_MAX ->
  constructed (PeriodVector_ctor this d h).1 (pv_base (PeriodVector_ctor this d h).2) /\
  size (pv_base (PeriodVector_ctor this d h).2) = maxper.
Proof.
  intros Hm. unfold PeriodVector_ctor.
  rewrite (surjective_pairing (TimeVectorBase_ctor this (to_uint maxper) d h)).
  cbn [fst snd pv_base]. rewrite to_uint_small by exact Hm.
  split; [by apply TimeVectorBase_ctor_constructed | reflexivity].
Qed.

(** Assigning a [YearVector] to itself changes nothing. *)
Lemma YearVector_assign_self v h : YearVector_assign v v h = Ret (h, v).
Proof. unfold YearVector_assign. by rewrite Pos.eqb_refl. Qed.

(** [!=] is the negation of [==]. *)
Lemma operator_ne_negates a b h r :
  operator_eq a b h = Ret r -> operator_ne a b h = Ret (negb r).
Proof. intros Hr. unfold operator_ne. by rewrite Hr. Qed.

(** ** Element access *)

(** Every position below [mSize] of a constructed object holds an element,
    the one [contents] lists there. *)
Lemma constructed_elem h v i :
  constructed h v -> 0 <= i < mSize v ->
  exists l x, contents h v = Some l /\ l !! Z.to_nat i = Some x /\
              load h (ptr_add (mData v) i) = Ret x.
Proof.
  intros (b & l & Hd & Hb & Hl & _ & _) Hi.
  destruct (lookup_lt_is_Some_2 l (Z.to_nat i)) as [x Hx]; [lia |].
  exists l, x. unfold contents. rewrite Hd. simpl.
  repeat split; auto. eapply load_elem; eauto; lia.
Qed.

(** Nothing is stored at or beyond [mSize], nor before the array. *)
Lemma constructed_no_elem h v i :
  constructed h v -> i < 0 \/ mSize v <= i ->
  load h (ptr_add (mData v) i) = Undefined.
Proof.
  intros (b & l & Hd & Hb & Hl & _ & _) Hi.
  rewrite Hd. simpl. rewrite Z.add_0_l. unfold load. rewrite Hb.
  destruct (0 <=? i) eqn:E; [| reflexivity].
  rewrite lookup_ge_None_2; [reflexivity | lia].
Qed.

Lemma YearVector_index_in_range bld h v y :
  YearVector_constructed h v -> mStartYear v <= y <= mEndYear v ->
  exists x,
    load h (ptr_add (mData (yv_base v)) (y - mStartYear v)) = Ret x /\
    YearVector_index bld v y h =
      if passes bld x then Ret (ptr_add (mData (yv_base v)) (y - mStartYear v))
      else AssertionFailed.
Proof.
  intros [Hc Hsz] Hy.
  destruct (constructed_elem h (yv_base v) (y - mStartYear v) Hc) as (l & x & _ & _ & Hx);
    [lia |].
  exists x. split; [exact Hx |].
  assert (Hm : mSize (yv_base v) <= UINT_MAX) by (destruct Hc as (? & ? & ? & ? & ? & ? & ?); lia).
  unfold YearVector_index, element_ref.
  rewrite to_size_t_small by (unfold UINT_MAX, SIZE_MAX in *; lia).
  rewrite Hx.
  replace ((mStartYear v <=? y) && (y <=? mEndYear v)) with true
    by (symmetry; apply andb_true_iff; split; apply Z.leb_le; lia).
  destruct bld; simpl; [| reflexivity].
  destruct (isValidNumber x); reflexivity.
Qed.

Lemma YearVector_index_out_of_range h v y :
  y < mStartYear v \/ mEndYear v < y ->
  YearVector_index Debug v y h = AssertionFailed.
Proof.
  intros Hy. unfold YearVector_index.
  replace ((mStartYear v <=? y) && (y <=? mEndYear v)) with false; [reflexivity |].
  symmetry. apply andb_false_iff.
  destruct Hy; [left; apply Z.leb_gt | right; apply Z.leb_gt]; lia.
Qed.

Lemma PeriodVector_index_in_range bld h v i :
  constructed h (pv_base v) -> 0 <= i < size (pv_base v) ->
  exists x,
    load h (ptr_add (mData (pv_base v)) i) = Ret x /\
    PeriodVector_index bld v i h =
      if passes bld x then Ret (ptr_add (mData (pv_base v)) i)
      else AssertionFailed.
Proof.
  intros Hc Hi. unfold size in Hi.
  destruct (constructed_elem h (pv_base v) i Hc Hi) as (l & x & _ & _ & Hx).
  exists x. split; [exact Hx |].
  unfold PeriodVector_index, element_ref, size. rewrite Hx.
  replace (i <? mSize (pv_base v)) with true by (symmetry; apply Z.ltb_lt; lia).
  destruct bld; simpl; [| reflexivity].
  destruct (isValidNumber x); reflexivity.
Qed.

Lemma PeriodVector_index_out_of_range h v i :
  size (pv_base v) <= i -> PeriodVector_index Debug v i h = AssertionFailed.
Proof.
  intros Hi. unfold PeriodVector_index.
  replace (i <? size (pv_base v)) with false; [reflexivity |].
  symmetry. apply Z.ltb_ge. lia.
Qed.

(** With [NDEBUG] nothing checks the argument: outside the bounds of a
    constructed vector the access is undefined. *)
Lemma PeriodVector_index_release_out_of_range h v i :
  constructed h (pv_base v) -> size (pv_base v) <= i ->
  PeriodVector_index Release v i h = Undefined.
Proof.
  intros Hc Hi. unfold PeriodVector_index, element_ref. simpl.
  rewrite constructed_no_elem; auto.
Qed.

(** C4 (as amended).  When [aStartYear <= aEndYear] and the number of years
    [aEndYear - aStartYear + 1] fits an [unsigned int], the constructed
    [YearVector] has exactly that size, every slot holds the default
    value, and indexing by a year [y] of the range goes to position
    [y - aStartYear] of the array: that slot is the one read, and the one
    the returned reference designates (a debug build first asserts
    [isValidNumber] on the value found there). *)
Theorem YearVector_ctor_size_fill_index bld this aStartYear aEndYear d h y :
  aStartYear <= aEndYear -> aEndYear - aStartYear + 1 <= UINT_MAX ->
  aStartYear <= y <= aEndYear ->
  let h' := (YearVector_ctor this aStartYear aEndYear d h).1 in
  let v := (YearVector_ctor this aStartYear aEndYear d h).2 in
  size (yv_base v) = aEndYear - aStartYear + 1 /\
  contents h' (yv_base v) =
    Some (replicate (Z.to_nat (aEndYear - aStartYear + 1)) d) /\
  load h' (ptr_add (mData (yv_base v)) (y - aStartYear)) = Ret d /\
  YearVector_index bld v y h' =
    if passes bld d then Ret (ptr_add (mData (yv_base v)) (y - aStartYear))
    else AssertionFailed.
Proof.
  intros Hse Hfit Hy h' v.
  assert (Hu : to_uint (aEndYear - aStartYear + 1) = aEndYear - aStartYear + 1)
    by (apply to_uint_small; lia).
  assert (Hcont : contents h' (yv_base v) =
                  Some (replicate (Z.to_nat (aEndYear - aStartYear + 1)) d)).
  { subst h' v. rewrite YearVector_ctor_members, YearVector_ctor_store.
    cbn [yv_base]. rewrite TimeVectorBase_ctor_contents. by rewrite Hu. }
  assert (Hv : YearVector_constructed h' v)
    by (apply YearVector_ctor_constructed; assumption).
  assert (Hs : mStartYear v = aStartYear) by reflexivity.
  assert (He : mEndYear v = aEndYear) by reflexivity.
  destruct (YearVector_index_in_range bld h' v y Hv) as (x & Hx & Hidx);
    [rewrite Hs, He; exact Hy |].
  rewrite Hs in Hx, Hidx.
  assert (x = d) as ->.
  { destruct Hv as [Hc Hsz].
    destruct (constructed_elem h' (yv_base v) (y - aStartYear) Hc)
      as (l & x' & Hl & Hx' & Hload); [rewrite Hsz, Hs, He; lia |].
    rewrite Hcont in Hl. injection Hl as <-.
    apply lookup_replicate in Hx' as [-> _].
    rewrite Hload in Hx. by injection Hx as ->. }
  repeat split; [exact Hu | exact Hcont | exact Hx | exact Hidx].
Qed.

(** ** Bounds and validity checks of [operator[]] *)

Lemma operator_index_in_bounds bld h v k :
  derived_constructed h v -> in_bounds v k ->
  exists x,
    load h (slot v k) = Ret x /\
    operator_index bld v k h =
      if passes bld x then Ret (slot v k) else AssertionFailed.
Proof.
  destruct v as [yv | pv]; simpl; intros Hc Hk.
  - by apply YearVector_index_in_range.
  - by apply PeriodVector_index_in_range.
Qed.

Lemma operator_index_out_of_bounds h v k :
  0 <= k -> ~ in_bounds v k -> operator_index Debug v k h = AssertionFailed.
Proof.
  destruct v as [yv | pv]; simpl; intros Hk Hout.
  - apply YearVector_index_out_of_range. lia.
  - apply PeriodVector_index_out_of_range. lia.
Qed.

(** C7 (as amended).  In a debug build, for a constructed [YearVector]
    (argument: a year) or [PeriodVector] (argument: a position): an
    argument outside the bounds fails the precondition assertion and no
    value is returned; an argument within the bounds always passes that
    assertion, and the access returns a reference to the stored element
    exactly when the value stored there passes [isValidNumber] (otherwise
    the second assertion fails). *)
Theorem operator_index_bounds_checked h v k :
  derived_constructed h v -> 0 <= k ->
  (in_bounds v k ->
     exists x, load h (slot v k) = Ret x /\
       operator_index Debug v k h =
         if isValidNumber x then Ret (slot v k) else AssertionFailed) /\
  (~ in_bounds v k -> operator_index Debug v k h = AssertionFailed).
Proof.
  intros Hc Hk. split.
  - intros Hin. exact (operator_index_in_bounds Debug h v k Hc Hin).
  - intros Hout. by apply operator_index_out_of_bounds.
Qed.

(** Whatever [operator[]] returns in a debug build designates an element
    whose value it has just checked. *)
Lemma operator_index_Ret h v k p :
  operator_index Debug v k h = Ret p ->
  exists x, load h p = Ret x /\ isValidNumber x = true.
Proof.
  assert (Hgen : forall c d i,
    (do _ <- assert_ Debug (Ret c);
     do _ <- assert_ Debug (do x <- load h (ptr_add d i); Ret (isValidNumber x));
     element_ref h d i) = Ret p ->
    exists x, load h p = Ret x /\ isValidNumber x = true).
  { intros c d i. unfold assert_, element_ref, bind.
    destruct c; [| discriminate].
    destruct (load h (ptr_add d i)) as [x | |] eqn:Hx; try discriminate.
    destruct (isValidNumber x) eqn:Hv; [| discriminate].
    intros [= <-]. exists x. by rewrite Hx. }
  destruct v as [yv | pv]; simpl; apply Hgen.
Qed.

(** C9 (as amended).  In a debug build [operator[]] checks the value found
    in the slot at the time of the access, and only then hands out the
    reference: the element a returned reference designates holds a valid
    number.  What is written through the reference is not checked: an
    invalid number is stored as it is, and it is the next [operator[]] on
    that slot that fails its assertion. *)
Theorem operator_index_checks_on_access h v k p x :
  operator_index Debug v k h = Ret p -> isValidNumber x = false ->
  (exists x0, load h p = Ret x0 /\ isValidNumber x0 = true) /\
  (exists h', store h p x = Ret h' /\ load h' p = Ret x /\
              operator_index Debug v k h' = AssertionFailed).
Proof.
  intros Hp Hx.
  destruct (operator_index_Ret h v k p Hp) as (x0 & Hx0 & Hv0).
  split; [by exists x0 |].
  destruct (load_Ret h p x0 Hx0) as (b & i & l & -> & Hb & Hi & Hl).
  assert (Hlen : 0 <= i < Z.of_nat (length l)).
  { apply lookup_lt_Some in Hl. lia. }
  eexists. split; [by apply store_elem |].
  assert (Hrd : load {| arrays := <[b := <[Z.to_nat i := x]> l]> (arrays h);
                        nextblock := nextblock h |} (Ptr b i) = Ret x).
  { eapply load_store_same. by apply store_elem. }
  split; [exact Hrd |].
  clear Hv0.
  assert (Hgen : forall c d j,
    (do _ <- assert_ Debug (Ret c);
     do _ <- assert_ Debug (do y <- load h (ptr_add d j); Ret (isValidNumber y));
     element_ref h d j) = Ret (Ptr b i) ->
    c = true /\ ptr_add d j = Ptr b i).
  { intros c d j. unfold assert_, element_ref, bind.
    destruct c; [| discriminate].
    destruct (load h (ptr_add d j)) as [y | |]; try discriminate.
    destruct (isValidNumber y); [| discriminate].
    by intros [= <-]. }
  destruct v as [yv | pv]; cbn [operator_index] in *.
  - destruct (Hgen _ _ _ Hp) as [Hc Hq].
    unfold YearVector_index. rewrite Hc, Hq.
    unfold assert_, bind. rewrite Hrd, Hx. reflexivity.
  - destruct (Hgen _ _ _ Hp) as [Hc Hq].
    unfold PeriodVector_index. rewrite Hc, Hq.
    unfold assert_, bind. rewrite Hrd, Hx. reflexivity.
Qed.

(** ** Iterators *)

(** For a size that fits an [int], [last()] is at position [size - 1] when
    the vector is not empty and at position 0, which is [begin()], when it
    is; the same for the overload on a constant vector. *)
Lemma last_position v :
  0 <= size v <= INT_MAX ->
  (1 <= size v ->
     last v = iter_add (begin v) (size v - 1) /\
     last_const v = iter_add (begin v) (size v - 1)) /\
  (size v = 0 -> last v = begin v /\ last_const v = begin v).
Proof.
  intros Hs. unfold last, last_const, iter_add, begin. cbn [iter_base].
  rewrite to_int_small by exact Hs. split.
  - intros Hpos. rewrite Z.max_l by lia. done.
  - intros ->. rewrite Z.max_r by lia. by rewrite ptr_add_0.
Qed.

(** A size that does not fit an [int] is seen as negative, and [last()]
    stays at the first position. *)
Lemma last_beyond_int v :
  INT_MAX + 1 < size v <= UINT_MAX -> last v = begin v /\ last_const v = begin v.
Proof.
  intros Hs. unfold last, last_const, begin.
  assert (Hneg : to_int (size v) = size v - (UINT_MAX + 1)).
  { unfold to_int, INT_MAX, UINT_MAX in *.
    replace (size v + (2147483647 + 1))
      with (size v - 2147483648 + 1 * (4294967295 + 1)) by lia.
    rewrite Z.mod_add by lia. rewrite Z.mod_small; lia. }
  rewrite Hneg. unfold UINT_MAX in *.
  rewrite Z.max_r by lia. by rewrite ptr_add_0.
Qed.

(** [find] inside the range of years wraps the bare difference of years. *)
Lemma find_in_range v y :
  mStartYear v <= y <= mEndYear v ->
  find v y = Iter (IntPtr (to_uint (y - mStartYear v))).
Proof.
  intros Hy. unfold find.
  replace ((y <? mStartYear v) || (mEndYear v <? y)) with false; [reflexivity |].
  symmetry. apply orb_false_iff. split; apply Z.ltb_ge; lia.
Qed.

(** So it is not the iterator of the year's slot, and cannot be
    dereferenced. *)
Lemma find_in_range_not_slot h v y :
  YearVector_constructed h v -> mStartYear v <= y <= mEndYear v ->
  find v y <> iter_add (begin (yv_base v)) (y - mStartYear v) /\
  deref h (find v y) = Undefined.
Proof.
  intros [(b & l & Hd & _) _] Hy. rewrite find_in_range by exact Hy.
  unfold iter_add, begin, deref. cbn [iter_base]. rewrite Hd.
  split; [discriminate | reflexivity].
Qed.

(** ** Copying *)

(** The copying loop, started at position [i] with the first [i] elements
    already equal and run to the end of the source, leaves the source's
    elements in the destination. *)
Lemma copy_loop_to_end b1 b2 l1 :
  b1 <> b2 ->
  forall n i h l2,
    arrays h !! b1 = Some l1 -> arrays h !! b2 = Some l2 ->
    length l2 = length l1 -> take i l2 = take i l1 ->
    (i + n = length l1)%nat ->
    copy_loop n (Ptr b1 (Z.of_nat i)) (Ptr b2 (Z.of_nat i)) h =
      Ret {| arrays := <[b2 := l1]> (arrays h); nextblock := nextblock h |}.
Proof.
  intros Hne. induction n as [| n IH]; intros i h l2 H1 H2 Hlen Htk Hin.
  - simpl. f_equal.
    assert (l2 = l1) as ->.
    { rewrite <- (take_ge l2 i), <- (take_ge l1 i) by lia. exact Htk. }
    rewrite insert_id by exact H2. by destruct h.
  - destruct (lookup_lt_is_Some_2 l1 i) as [x Hx]; [lia |].
    cbn [copy_loop].
    rewrite (load_elem h b1 l1 (Z.of_nat i) x H1) by (rewrite ?Nat2Z.id; auto; lia).
    cbn [bind].
    rewrite (store_elem h b2 l2 (Z.of_nat i) x H2) by lia.
    cbn [bind ptr_add]. rewrite Nat2Z.id.
    replace (Z.of_nat i + 1) with (Z.of_nat (S i)) by lia.
    rewrite (IH (S i) _ (<[i := x]> l2)); cbn [arrays nextblock].
    + by rewrite insert_insert_eq.
    + by rewrite lookup_insert_ne.
    + apply lookup_insert_eq.
    + by rewrite length_insert.
    + rewrite (take_S_r l1 i x Hx).
      rewrite (take_S_r (<[i := x]> l2) i x) by (apply list_lookup_insert_eq; lia).
      rewrite take_insert_ge by lia. by rewrite Htk.
    + lia.
Qed.

(** The copy constructor hands out a fresh array holding the elements of
    [aOther], and returns an object of the same size that owns it. *)
Lemma TimeVectorBase_copy_spec this a h la :
  constructed h a -> contents h a = Some la ->
  TimeVectorBase_copy this a h =
    Ret ({| arrays := <[nextblock h := la]> (arrays h);
            nextblock := Pos.succ (nextblock h) |},
         {| this_addr := this; mData := Ptr (nextblock h) 0; mSize := mSize a |}).
Proof.
  intros (b & l & Hd & Hb & Hl & Hmax & Hfresh) Hla.
  unfold contents in Hla. rewrite Hd in Hla. simpl in Hla.
  rewrite Hb in Hla. injection Hla as ->.
  unfold TimeVectorBase_copy, init, new_filled, std_copy, begin, end_, size.
  rewrite to_uint_small by lia.
  cbn [iter_base mData mSize]. rewrite Hd. cbn [ptr_add ptr_diff].
  rewrite decide_True by reflexivity.
  replace (0 + mSize a - 0) with (mSize a) by lia.
  destruct (0 <=? mSize a) eqn:E; [| lia].
  rewrite (copy_loop_to_end b (nextblock h) la
             ltac:(lia) (Z.to_nat (mSize a)) 0%nat _
             (replicate (Z.to_nat (mSize a)) T_default)); cbn [arrays nextblock].
  - cbn [bind]. by rewrite insert_insert_eq.
  - rewrite lookup_insert_ne by lia. exact Hb.
  - apply lookup_insert_eq.
  - rewrite length_replicate. lia.
  - reflexivity.
  - lia.
Qed.

(** Writes into one array leave every other array as it was. *)
Lemma store_all_other_array b b' :
  b' <> b ->
  forall ws ofs h h',
    store_all h (Ptr b ofs) ws = Ret h' -> arrays h' !! b' = arrays h !! b'.
Proof.
  intros Hne. induction ws as [| [i x] ws IH]; intros ofs h h' Hw.
  - by injection Hw as <-.
  - cbn [store_all ptr_add] in Hw.
    destruct (store h (Ptr b (ofs + i)) x) as [h1 | |] eqn:Hs; try discriminate.
    cbn [bind] in Hw. rewrite (IH _ _ _ Hw).
    by eapply store_other_array.
Qed.

Lemma assign_loop_other_array b b' x :
  b' <> b ->
  forall n ofs i h h',
    assign_loop n (Ptr b ofs) i x h = Ret h' -> arrays h' !! b' = arrays h !! b'.
Proof.
  intros Hne. induction n as [| n IH]; intros ofs i h h' Hw.
  - by injection Hw as <-.
  - cbn [assign_loop ptr_add] in Hw.
    destruct (store h (Ptr b (ofs + i)) x) as [h1 | |] eqn:Hs; try discriminate.
    cbn [bind] in Hw. rewrite (IH _ _ _ _ Hw).
    by eapply store_other_array.
Qed.

Lemma assign_other_array bld v b b' n x h h' :
  mData v = Ptr b 0 -> b' <> b ->
  assign bld v n x h = Ret h' -> arrays h' !! b' = arrays h !! b'.
Proof.
  intros Hd Hne. unfold assign. rewrite Hd.
  destruct (assert_ bld (Ret (n <=? size v))); try discriminate.
  cbn [bind]. by apply assign_loop_other_array.
Qed.

(** ** Comparing *)

Lemma equal_loop_spec b1 b2 l1 l2 h :
  arrays h !! b1 = Some l1 -> arrays h !! b2 = Some l2 ->
  forall n i,
    (i + n <= length l1)%nat -> (i + n <= length l2)%nat ->
    exists r,
      equal_loop n (Ptr b1 (Z.of_nat i)) (Ptr b2 (Z.of_nat i)) h = Ret r /\
      (r = true <->
       Forall2 (fun x y => T_eqb x y = true)
               (take n (drop i l1)) (take n (drop i l2))).
Proof.
  intros H1 H2. induction n as [| n IH]; intros i Hi1 Hi2.
  - exists true. split; [reflexivity |]. split; [constructor | reflexivity].
  - destruct (lookup_lt_is_Some_2 l1 i) as [x Hx]; [lia |].
    destruct (lookup_lt_is_Some_2 l2 i) as [y Hy]; [lia |].
    cbn [equal_loop].
    rewrite (load_elem h b1 l1 (Z.of_nat i) x H1) by (rewrite ?Nat2Z.id; auto; lia).
    rewrite (load_elem h b2 l2 (Z.of_nat i) y H2) by (rewrite ?Nat2Z.id; auto; lia).
    cbn [bind ptr_add].
    rewrite (drop_S l1 x i Hx), (drop_S l2 y i Hy). cbn [take].
    replace (Z.of_nat i + 1) with (Z.of_nat (S i)) by lia.
    destruct (T_eqb x y) eqn:Exy.
    + destruct (IH (S i)) as (r & Hr & Hiff); [lia | lia |].
      exists r. split; [exact Hr |]. rewrite Hiff. split.
      * intros Hrest. by constructor.
      * intros Hall. by inversion Hall.
    + exists false. split; [reflexivity |]. split; [discriminate |].
      intros Hall. inversion Hall; congruence.
Qed.

(** [operator==] always returns on constructed objects, and it returns
    [true] exactly for equal sizes and pairwise [==] elements. *)
Lemma operator_eq_spec a b h la lb :
  constructed h a -> constructed h b ->
  contents h a = Some la -> contents h b = Some lb ->
  exists r,
    operator_eq a b h = Ret r /\
    (r = true <->
     size a = size b /\ Forall2 (fun x y => T_eqb x y = true) la lb).
Proof.
  intros (ba & la' & Hda & Hba & Hla' & _ & _) (bb & lb' & Hdb & Hbb & Hlb' & _ & _) Hla Hlb.
  unfold contents in Hla, Hlb. rewrite Hda in Hla. rewrite Hdb in Hlb.
  simpl in Hla, Hlb. rewrite Hba in Hla. rewrite Hbb in Hlb.
  injection Hla as ->. injection Hlb as ->.
  unfold operator_eq, size.
  destruct (mSize a =? mSize b) eqn:E.
  - apply Z.eqb_eq in E.
    unfold std_equal, begin, end_, size. cbn [iter_base]. rewrite Hda, Hdb.
    cbn [ptr_add ptr_diff]. rewrite decide_True by reflexivity.
    replace (0 + mSize a - 0) with (mSize a) by lia.
    destruct (0 <=? mSize a) eqn:E0; [| lia].
    destruct (equal_loop_spec ba bb la lb h Hba Hbb (Z.to_nat (mSize a)) 0%nat)
      as (r & Hr & Hiff); [lia | lia |].
    exists r. split; [exact Hr |]. rewrite Hiff.
    rewrite !drop_0. rewrite !take_ge by lia.
    split; [intros Hall; split; [exact E | exact Hall] | intros [_ Hall]; exact Hall].
  - apply Z.eqb_neq in E. exists false. split; [reflexivity |].
    split; [discriminate |]. intros [Hs _]. contradiction.
Qed.

(** An object that owns a live array of its own is an independent copy of
    any object whose array holds the same elements. *)
Lemma own_array_independent h c a bc ba la :
  mData c = Ptr bc 0 -> mData a = Ptr ba 0 -> bc <> ba ->
  arrays h !! bc = Some la -> arrays h !! ba = Some la ->
  mSize c = mSize a -> Z.of_nat (length la) = mSize a ->
  mSize a <= UINT_MAX -> (bc < nextblock h)%positive ->
  independent_copy h c a la.
Proof.
  intros Hc Ha Hne Hbc Hba Hsz Hlen Hmax Hfresh.
  assert (Hkeep : forall h', arrays h' !! ba = arrays h !! ba -> contents h' a = Some la).
  { intros h' H'. unfold contents. rewrite Ha. simpl. by rewrite H'. }
  unfold independent_copy, size. repeat split.
  - exact Hsz.
  - unfold contents. rewrite Hc. exact Hbc.
  - unfold contents. rewrite Ha. exact Hba.
  - exists bc, la. repeat split; auto; lia.
  - rewrite Hc, Ha. intros [= E]. contradiction.
  - intros ws h' Hw. apply Hkeep. rewrite Hc in Hw.
    eapply store_all_other_array; [| exact Hw]. auto.
  - intros bld n x h' Hw. apply Hkeep.
    eapply assign_other_array; [exact Hc | | exact Hw]. auto.
Qed.

(** Assignment from another object releases the array of [v], hands out a
    fresh one holding the elements of [aOther], and makes [v] own it. *)
Lemma operator_assign_spec v a h bv la :
  constructed h v -> constructed h a -> contents h a = Some la ->
  this_addr v <> this_addr a -> mData v = Ptr bv 0 -> mData v <> mData a ->
  operator_assign v a h =
    Ret ({| arrays := <[nextblock h := la]> (delete bv (arrays h));
            nextblock := Pos.succ (nextblock h) |},
         {| this_addr := this_addr v; mData := Ptr (nextblock h) 0; mSize := mSize a |}).
Proof.
  intros (bv' & lv & Hdv & Hbv & _ & _ & Hfv) (ba & l & Hda & Hba & Hl & Hmax & Hfa)
         Hla Haddr Hv Hdist.
  rewrite Hv in Hdv. injection Hdv as <-.
  unfold contents in Hla. rewrite Hda in Hla. simpl in Hla.
  rewrite Hba in Hla. injection Hla as ->.
  assert (Hne : bv <> ba) by (intros ->; apply Hdist; by rewrite Hv, Hda).
  unfold operator_assign.
  replace (this_addr v =? this_addr a)%positive with false
    by (symmetry; by apply Pos.eqb_neq).
  cbn [negb]. unfold clear, delete_array. rewrite Hv.
  rewrite bool_decide_eq_true_2 by (rewrite Hbv; eauto).
  cbn [Z.eqb andb bind].
  unfold init, new_filled, std_copy, begin, end_, size.
  rewrite to_uint_small by lia.
  cbn [iter_base mData mSize arrays nextblock]. rewrite Hda. cbn [ptr_add ptr_diff].
  rewrite decide_True by reflexivity.
  replace (0 + mSize a - 0) with (mSize a) by lia.
  destruct (0 <=? mSize a) eqn:E; [| lia].
  rewrite (copy_loop_to_end ba (nextblock h) la
             ltac:(lia) (Z.to_nat (mSize a)) 0%nat _
             (replicate (Z.to_nat (mSize a)) T_default)); cbn [arrays nextblock].
  - cbn [bind]. by rewrite insert_insert_eq.
  - rewrite lookup_insert_ne by lia. rewrite lookup_delete_ne by exact Hne. exact Hba.
  - apply lookup_insert_eq.
  - rewrite length_replicate. lia.
  - reflexivity.
  - lia.
Qed.

(** C6.  For constructed vectors [a] and [b] with elements [la] and [lb]:
    copy-constructing from [a] gives an object of the same size with the
    same elements in an array of its own, so that no sequence of writes
    through references or iterators into the copy, and no [assign] on it,
    changes the elements of [a] (and the same holds for [b] after
    [b = a], when [b] is another object); assigning [a] to itself changes
    neither the store nor [a]; and [a == b] returns [true] exactly when
    the sizes are equal and the elements are pairwise equal by [T]'s
    [operator==]. *)
Theorem copy_self_assign_equality this a b h la lb :
  constructed h a -> constructed h b ->
  contents h a = Some la -> contents h b = Some lb ->
  (exists h1 c,
     TimeVectorBase_copy this a h = Ret (h1, c) /\ independent_copy h1 c a la) /\
  (this_addr b <> this_addr a -> mData b <> mData a ->
   exists h1 b',
     operator_assign b a h = Ret (h1, b') /\ independent_copy h1 b' a la) /\
  operator_assign a a h = Ret (h, a) /\
  (exists r,
     operator_eq a b h = Ret r /\
     (r = true <->
      size a = size b /\ Forall2 (fun x y => T_eqb x y = true) la lb)).
Proof.
  intros Ha Hb Hla Hlb.
  pose proof Ha as (ba & l & Hd & Hba & Hl & Hmax & Hfresh).
  assert (l = la) as ->.
  { unfold contents in Hla. rewrite Hd in Hla. simpl in Hla. congruence. }
  split; [| split; [| split]].
  - rewrite (TimeVectorBase_copy_spec this a h la Ha Hla).
    eexists _, _. split; [reflexivity |].
    apply (own_array_independent _ _ _ (nextblock h) ba); cbn [mData mSize arrays nextblock];
      auto; try lia.
    + apply lookup_insert_eq.
    + rewrite lookup_insert_ne by lia. exact Hba.
  - intros Haddr Hdist.
    pose proof Hb as (bb & l' & Hdb & Hbb & _ & _ & Hfb).
    assert (Hne : bb <> ba) by (intros ->; apply Hdist; by rewrite Hdb, Hd).
    rewrite (operator_assign_spec b a h bb la Hb Ha Hla Haddr Hdb Hdist).
    eexists _, _. split; [reflexivity |].
    apply (own_array_independent _ _ _ (nextblock h) ba); cbn [mData mSize arrays nextblock];
      auto; try lia.
    + apply lookup_insert_eq.
    + rewrite lookup_insert_ne by lia. rewrite lookup_delete_ne by exact Hne. exact Hba.
  - unfold operator_assign. by rewrite Pos.eqb_refl.
  - by apply operator_eq_spec.
Qed.

(** * Further properties of the header *)

(** ** [assign] *)

Lemma assign_loop_spec b x :
  forall n i h l,
    arrays h !! b = Some l -> (i + n <= length l)%nat ->
    assign_loop n (Ptr b 0) (Z.of_nat i) x h =
      Ret {| arrays := <[b := take i l ++ replicate n x ++ drop (i + n) l]> (arrays h);
             nextblock := nextblock h |}.
Proof.
  induction n as [| n IH]; intros i h l Hb Hin.
  - cbn [assign_loop replicate app]. rewrite Nat.add_0_r, take_drop.
    rewrite insert_id by exact Hb. by destruct h.
  - cbn [assign_loop ptr_add]. rewrite Z.add_0_l.
    rewrite (store_elem h b l (Z.of_nat i) x Hb) by lia.
    cbn [bind]. rewrite Nat2Z.id.
    replace (Z.of_nat i + 1) with (Z.of_nat (S i)) by lia.
    rewrite (IH (S i) _ (<[i := x]> l)); cbn [arrays nextblock].
    + rewrite insert_insert_eq. do 3 f_equal.
      rewrite (take_S_r (<[i := x]> l) i x) by (apply list_lookup_insert_eq; lia).
      rewrite take_insert_ge by lia.
      rewrite drop_insert_lt by lia.
      rewrite <- app_assoc. cbn [replicate app].
      by replace (S i + n)%nat with (i + S n)%nat by lia.
    + apply lookup_insert_eq.
    + rewrite length_insert. lia.
Qed.

(** Past the end of the array the loop leaves defined behaviour. *)
Lemma assign_loop_overrun b x :
  forall n i h l,
    arrays h !! b = Some l -> (i <= length l)%nat -> (length l < i + n)%nat ->
    assign_loop n (Ptr b 0) (Z.of_nat i) x h = Undefined.
Proof.
  induction n as [| n IH]; intros i h l Hb Hi Hover; [lia |].
  cbn [assign_loop ptr_add]. rewrite Z.add_0_l.
  destruct (decide (i < length l)%nat) as [Hlt | Hge].
  - rewrite (store_elem h b l (Z.of_nat i) x Hb) by lia.
    cbn [bind]. replace (Z.of_nat i + 1) with (Z.of_nat (S i)) by lia.
    apply (IH (S i) _ (<[Z.to_nat (Z.of_nat i) := x]> l)); cbn [arrays].
    + apply lookup_insert_eq.
    + rewrite length_insert. lia.
    + rewrite length_insert. lia.
  - unfold store. rewrite Hb.
    replace (Z.of_nat i <? Z.of_nat (length l)) with false
      by (symmetry; apply Z.ltb_ge; lia).
    by rewrite andb_false_r.
Qed.

(** X1.  [assign( n, x )] with [n] at most the size, on a constructed
    vector: it returns in either build, the first [n] elements are [x], the
    elements from position [n] on are the ones that were there, the size
    does not change, and no other array is written. *)
Theorem assign_fills_prefix bld h v n x l :
  constructed h v -> contents h v = Some l -> 0 <= n <= size v ->
  exists h',
    assign bld v n x h = Ret h' /\
    contents h' v = Some (replicate (Z.to_nat n) x ++ drop (Z.to_nat n) l) /\
    constructed h' v /\
    forall b', mData v <> Ptr b' 0 -> arrays h' !! b' = arrays h !! b'.
Proof.
  intros (b & l0 & Hd & Hb & Hl & Hmax & Hf) Hc Hn. unfold size in Hn.
  assert (l0 = l) as ->.
  { unfold contents in Hc. rewrite Hd in Hc. simpl in Hc. congruence. }
  eexists. split.
  - unfold assign, size. rewrite Hd.
    replace (n <=? mSize v) with true by (symmetry; apply Z.leb_le; lia).
    replace (assert_ bld (Ret true)) with (Ret tt) by (by destruct bld).
    cbn [bind].
    apply (assign_loop_spec b x (Z.to_nat n) 0%nat h l Hb). lia.
  - cbn [take app Nat.add]. repeat split.
    + unfold contents. rewrite Hd. cbn [Z.eqb arrays]. apply lookup_insert_eq.
    + exists b, (replicate (Z.to_nat n) x ++ drop (Z.to_nat n) l). cbn [arrays nextblock].
      repeat split; auto; [apply lookup_insert_eq |].
      rewrite length_app, length_replicate, length_drop. lia.
    + intros b' Hne. cbn [arrays]. apply lookup_insert_ne.
      intros <-. by apply Hne.
Qed.

(** X2.  [assign( n, x )] with [n] beyond the size, on a constructed
    vector: a debug build stops at the assertion before anything is
    written; without the assertion the loop writes past the end of the
    array, which is undefined behaviour. *)
Theorem assign_beyond_size h v n x :
  constructed h v -> size v < n ->
  assign Debug v n x h = AssertionFailed /\
  assign Release v n x h = Undefined.
Proof.
  intros (b & l & Hd & Hb & Hl & Hmax & Hf) Hn. unfold size in Hn. split.
  - unfold assign, size.
    replace (n <=? mSize v) with false by (symmetry; apply Z.leb_gt; lia).
    reflexivity.
  - unfold assign. cbn [assert_ bind]. rewrite Hd.
    apply (assign_loop_overrun b x (Z.to_nat n) 0%nat h l Hb); lia.
Qed.

(** ** Allocation and release *)

(** X3.  Constructing a vector, or copy-constructing one from [a], takes an
    array that no constructed object has: every object constructed before
    stays constructed, keeps its elements, and does not share its array
    with the new object. *)
Theorem construction_leaves_others this n d a la h v :
  constructed h v -> constructed h a -> contents h a = Some la ->
  (constructed (TimeVectorBase_ctor this n d h).1 v /\
   contents (TimeVectorBase_ctor this n d h).1 v = contents h v /\
   mData (TimeVectorBase_ctor this n d h).2 <> mData v) /\
  (exists h1 c,
     TimeVectorBase_copy this a h = Ret (h1, c) /\
     constructed h1 v /\ contents h1 v = contents h v /\ mData c <> mData v).
Proof.
  intros (b & l & Hd & Hb & Hl & Hmax & Hf) Ha Hla.
  assert (Hne : b <> nextblock h) by lia.
  assert (Hframe : forall lnew,
    let h' := {| arrays := <[nextblock h := lnew]> (arrays h);
                 nextblock := Pos.succ (nextblock h) |} in
    constructed h' v /\ contents h' v = contents h v).
  { intros lnew h'. split.
    - exists b, l. subst h'. cbn [arrays nextblock].
      rewrite lookup_insert_ne by auto. repeat split; auto. lia.
    - unfold contents. rewrite Hd. subst h'. cbn [Z.eqb arrays].
      by rewrite lookup_insert_ne by auto. }
  split.
  - rewrite TimeVectorBase_ctor_members, TimeVectorBase_ctor_store.
    destruct (Hframe (replicate (Z.to_nat n) d)) as [H1 H2].
    repeat split; auto. cbn [mData]. rewrite Hd. intros [= E]. lia.
  - rewrite (TimeVectorBase_copy_spec this a h la Ha Hla).
    destruct (Hframe la) as [H1 H2].
    eexists _, _. split; [reflexivity |].
    repeat split; auto. cbn [mData]. rewrite Hd. intros [= E]. lia.
Qed.

(** X4.  The destructor of a constructed vector releases its array and
    nothing else: afterwards the vector has no elements, reading through
    [mData] at any position and destroying it a second time are undefined,
    and every other constructed vector is as before.  A vector constructed
    and at once destroyed leaves the arrays of the store as they were. *)
Theorem dtor_releases_own_array this n d h v :
  constructed h v -> arrays h !! nextblock h = None ->
  (exists h',
     TimeVectorBase_dtor v h = Ret h' /\
     contents h' v = None /\
     (forall i, load h' (ptr_add (mData v) i) = Undefined) /\
     TimeVectorBase_dtor v h' = Undefined /\
     (forall w, constructed h w -> mData w <> mData v ->
                constructed h' w /\ contents h' w = contents h w)) /\
  (exists h',
     TimeVectorBase_dtor (TimeVectorBase_ctor this n d h).2
                         (TimeVectorBase_ctor this n d h).1 = Ret h' /\
     arrays h' = arrays h).
Proof.
  intros (b & l & Hd & Hb & Hl & Hmax & Hf) Hfresh. split.
  - set (h' := {| arrays := delete b (arrays h); nextblock := nextblock h |}).
    exists h'.
    split.
    { unfold TimeVectorBase_dtor, clear, delete_array. rewrite Hd.
      cbn [Z.eqb andb].
      by rewrite bool_decide_eq_true_2 by (rewrite Hb; eauto). }
    split.
    { unfold contents. rewrite Hd. subst h'. cbn [Z.eqb arrays].
      apply lookup_delete_eq. }
    split.
    { intros i. rewrite Hd. unfold load. subst h'. cbn [ptr_add arrays].
      by rewrite lookup_delete_eq. }
    split.
    { unfold TimeVectorBase_dtor, clear, delete_array. rewrite Hd.
      subst h'. cbn [Z.eqb andb arrays]. rewrite lookup_delete_eq.
      by rewrite bool_decide_eq_false_2 by (intros [? ?]; discriminate). }
    intros w (bw & lw & Hdw & Hbw & Hlw & Hmw & Hfw) Hne.
    assert (Hbne : b <> bw) by (intros <-; apply Hne; by rewrite Hd, Hdw).
    split.
    + exists bw, lw. subst h'. cbn [arrays nextblock].
      rewrite lookup_delete_ne by exact Hbne. repeat split; auto.
    + unfold contents. rewrite Hdw. subst h'. cbn [Z.eqb arrays].
      by rewrite lookup_delete_ne by exact Hbne.
  - rewrite TimeVectorBase_ctor_members, TimeVectorBase_ctor_store.
    unfold TimeVectorBase_dtor, clear, delete_array.
    cbn [mData Z.eqb andb arrays nextblock].
    rewrite bool_decide_eq_true_2 by (rewrite lookup_insert_eq; eauto).
    eexists. split; [reflexivity |]. cbn [arrays].
    by apply delete_insert_id.
Qed.

(** ** Iterators over a constructed vector *)

(** X5.  For a constructed vector, [begin()] and [end()] are [size()]
    apart; [begin() + i] for a position below the size reads element [i];
    [end()] cannot be dereferenced.  When the vector is not empty (and its
    size fits an [int]) [last()] reads the last element and [last() + 1]
    is [end()]; when it is empty [last()] is [end()] and cannot be
    dereferenced. *)
Theorem iterators_span_the_elements h v l :
  constructed h v -> contents h v = Some l ->
  ptr_diff (iter_base (end_ v)) (iter_base (begin v)) = Some (size v) /\
  (forall i, 0 <= i < size v ->
     exists x, l !! Z.to_nat i = Some x /\ deref h (iter_add (begin v) i) = Ret x) /\
  deref h (end_ v) = Undefined /\
  (1 <= size v <= INT_MAX ->
     iter_add (last v) 1 = end_ v /\
     exists x, l !! Z.to_nat (size v - 1) = Some x /\ deref h (last v) = Ret x) /\
  (size v = 0 -> last v = end_ v /\ deref h (last v) = Undefined).
Proof.
  intros Hc Hl.
  pose proof Hc as (b & l0 & Hd & Hb & Hlen & Hmax & Hf).
  assert (l0 = l) as ->.
  { unfold contents in Hl. rewrite Hd in Hl. simpl in Hl. congruence. }
  assert (Helem : forall i, 0 <= i < size v ->
     exists x, l !! Z.to_nat i = Some x /\ load h (ptr_add (mData v) i) = Ret x).
  { intros i Hi. destruct (constructed_elem h v i Hc Hi) as (l' & x & Hl' & Hx & Hld).
    exists x. split; [congruence | exact Hld]. }
  unfold size in *. repeat split.
  - unfold end_, begin, size. cbn [iter_base]. rewrite Hd. cbn [ptr_add ptr_diff].
    rewrite decide_True by reflexivity. f_equal. lia.
  - intros i Hi. unfold deref, iter_add, begin. cbn [iter_base]. by apply Helem.
  - unfold deref, end_, size. cbn [iter_base]. apply constructed_no_elem; auto. lia.
  - unfold iter_add, last, end_, size. cbn [iter_base].
    rewrite to_int_small by lia. rewrite Z.max_l by lia.
    rewrite Hd. cbn [ptr_add]. do 2 f_equal. lia.
  - unfold deref, last, size. cbn [iter_base].
    rewrite to_int_small by lia. rewrite Z.max_l by lia. apply Helem. lia.
  - unfold last, end_, size. rewrite H. reflexivity.
  - unfold deref, last, size. cbn [iter_base]. rewrite H. cbn.
    apply constructed_no_elem; auto. lia.
Qed.

(** ** Copying and comparing *)

Lemma Forall2_diag_iff (Q : T -> T -> Prop) (l : list T) :
  Forall2 Q l l <-> Forall (fun x => Q x x) l.
Proof.
  split; [| apply Forall_Forall2_diag].
  induction l as [| x l IH]; intros Hall; [constructor |].
  inversion Hall; subst. constructor; auto.
Qed.

(** X6.  A copy compares equal to its original, in either order, exactly
    when every element is equal to itself by [T]'s [operator==] (for
    [double]: when no element is a NaN); [!=] returns the opposite. *)
Theorem copy_compares_equal this a h la :
  constructed h a -> contents h a = Some la ->
  exists h1 c r,
    TimeVectorBase_copy this a h = Ret (h1, c) /\
    operator_eq c a h1 = Ret r /\
    operator_eq a c h1 = Ret r /\
    operator_ne c a h1 = Ret (negb r) /\
    (r = true <-> Forall (fun x => T_eqb x x = true) la).
Proof.
  intros Ha Hla.
  pose proof Ha as (ba & l & Hd & Hba & Hl & Hmax & Hfresh).
  assert (l = la) as ->.
  { unfold contents in Hla. rewrite Hd in Hla. simpl in Hla. congruence. }
  rewrite (TimeVectorBase_copy_spec this a h la Ha Hla).
  set (h1 := {| arrays := <[nextblock h := la]> (arrays h);
                nextblock := Pos.succ (nextblock h) |}).
  set (c := {| this_addr := this; mData := Ptr (nextblock h) 0; mSize := mSize a |}).
  assert (Hc1 : constructed h1 c).
  { exists (nextblock h), la. subst h1 c. cbn [mData mSize arrays nextblock].
    repeat split; auto; [apply lookup_insert_eq | lia]. }
  assert (Ha1 : constructed h1 a).
  { exists ba, la. subst h1. cbn [arrays nextblock].
    rewrite lookup_insert_ne by lia. repeat split; auto. lia. }
  assert (Hlc : contents h1 c = Some la).
  { unfold contents. subst h1 c. cbn [mData Z.eqb arrays]. apply lookup_insert_eq. }
  assert (Hla1 : contents h1 a = Some la).
  { unfold contents. rewrite Hd. subst h1. cbn [Z.eqb arrays].
    rewrite lookup_insert_ne by lia. exact Hba. }
  destruct (operator_eq_spec c a h1 la la Hc1 Ha1 Hlc Hla1) as (r & Hr & Hiff).
  destruct (operator_eq_spec a c h1 la la Ha1 Hc1 Hla1 Hlc) as (r' & Hr' & Hiff').
  assert (Hsz : size c = size a) by reflexivity.
  assert (Hrr : r = true <-> Forall (fun x => T_eqb x x = true) la).
  { rewrite Hiff, Forall2_diag_iff. split; [intros [_ Hall]; exact Hall | auto]. }
  assert (r' = r) as ->.
  { assert (Hrr' : r' = true <-> Forall (fun x => T_eqb x x = true) la).
    { rewrite Hiff', Forall2_diag_iff. split; [intros [_ Hall]; exact Hall | auto]. }
    destruct r, r'; auto.
    - apply (proj2 Hrr'). by apply (proj1 Hrr).
    - symmetry. apply (proj2 Hrr). by apply (proj1 Hrr'). }
  exists h1, c, r. repeat split; auto.
  - by apply operator_ne_negates.
  - by apply Hrr.
  - by apply Hrr.
Qed.

(** ** Conversion to [std::vector<double>] *)

Lemma convert_loop_spec b l h :
  arrays h !! b = Some l ->
  forall n i conv,
    (i + n <= length l)%nat -> length conv = length l ->
    convert_loop n (Ptr b (Z.of_nat i)) i conv h =
      Ret (take i conv ++ (T_to_double <$> take n (drop i l)) ++ drop (i + n) conv).
Proof.
  intros Hb. induction n as [| n IH]; intros i conv Hin Hlen.
  - cbn [convert_loop]. rewrite take_0, fmap_nil, app_nil_l, Nat.add_0_r.
    by rewrite take_drop.
  - destruct (lookup_lt_is_Some_2 l i) as [x Hx]; [lia |].
    cbn [convert_loop ptr_add].
    rewrite (load_elem h b l (Z.of_nat i) x Hb) by (rewrite ?Nat2Z.id; auto; lia).
    cbn [bind]. rewrite bool_decide_eq_true_2 by lia.
    replace (Z.of_nat i + 1) with (Z.of_nat (S i)) by lia.
    rewrite IH by (rewrite ?length_insert; lia).
    rewrite (take_S_r (<[i := T_to_double x]> conv) i (T_to_double x))
      by (apply list_lookup_insert_eq; lia).
    rewrite take_insert_ge by lia. rewrite drop_insert_lt by lia.
    rewrite (drop_S l x i Hx). rewrite firstn_cons, fmap_cons.
    rewrite <- app_assoc. cbn [app].
    by replace (S i + n)%nat with (i + S n)%nat by lia.
Qed.

(** X7.  [convertToVector] of a constructed [PeriodVector] returns a vector
    of exactly [size()] elements, element [i] being the conversion of
    element [i]; it goes through the iterators, so no element is checked
    with [isValidNumber] and the call returns in either build. *)
Theorem convertToVector_elements h v l :
  constructed h (pv_base v) -> contents h (pv_base v) = Some l ->
  convertToVector v h = Ret (T_to_double <$> l) /\
  Z.of_nat (length (T_to_double <$> l)) = size (pv_base v).
Proof.
  intros (b & l0 & Hd & Hb & Hlen & Hmax & Hf) Hl.
  assert (l0 = l) as ->.
  { unfold contents in Hl. rewrite Hd in Hl. simpl in Hl. congruence. }
  split; [| rewrite length_fmap; exact Hlen].
  unfold convertToVector, end_, begin, size. cbn [iter_base]. rewrite Hd.
  cbn [ptr_add ptr_diff]. rewrite decide_True by reflexivity.
  replace (0 + mSize (pv_base v) - 0) with (mSize (pv_base v)) by lia.
  destruct (0 <=? mSize (pv_base v)) eqn:E; [| lia].
  rewrite (convert_loop_spec b l h Hb (Z.to_nat (mSize (pv_base v))) 0%nat)
    by (rewrite ?length_replicate; lia).
  rewrite take_0, app_nil_l, Nat.add_0_l, drop_0.
  rewrite (take_ge l) by lia.
  rewrite drop_ge by (rewrite length_replicate; lia).
  by rewrite app_nil_r.
Qed.

(** ** Writing and reading by year *)

Lemma load_store_other_offset h b i x h' j :
  store h (Ptr b i) x = Ret h' -> j <> i -> load h' (Ptr b j) = load h (Ptr b j).
Proof.
  intros (b0 & i0 & l & [= <- <-] & Hb & Hi & ->)%store_Ret Hne.
  unfold load. cbn [arrays]. rewrite lookup_insert_eq, Hb.
  destruct (0 <=? j) eqn:E; [| reflexivity].
  rewrite list_lookup_insert_ne; [reflexivity |].
  apply Z.leb_le in E. lia.
Qed.

(** X8.  In a debug build, for a constructed [YearVector] and two different
    years [y] and [y'] of its range: after a valid number [x] is written
    through the reference [v[ y ]] returned, [v[ y ]] returns the same
    reference and the slot holds [x], while the slot of [y'] holds what it
    held and [v[ y' ]] has the outcome it had.  Different years never
    share a slot. *)
Theorem YearVector_write_then_read h v y y' x p :
  YearVector_constructed h v ->
  mStartYear v <= y <= mEndYear v -> mStartYear v <= y' <= mEndYear v ->
  y' <> y -> isValidNumber x = true ->
  YearVector_index Debug v y h = Ret p ->
  exists h',
    store h p x = Ret h' /\
    YearVector_constructed h' v /\
    YearVector_index Debug v y h' = Ret p /\ load h' p = Ret x /\
    slot (IsYearVector v) y' <> p /\
    load h' (slot (IsYearVector v) y') = load h (slot (IsYearVector v) y') /\
    YearVector_index Debug v y' h' = YearVector_index Debug v y' h.
Proof.
  intros Hv Hy Hy' Hne Hx Hp.
  destruct (YearVector_index_in_range Debug h v y Hv Hy) as (x0 & Hx0 & Hidx).
  rewrite Hidx in Hp. cbn [passes] in Hp.
  destruct (isValidNumber x0); [| discriminate]. injection Hp as <-.
  pose proof Hv as [(b & l & Hd & Hb & Hlen & Hmax & Hf) Hsz].
  rewrite Hd in *. cbn [ptr_add] in *.
  assert (Hst : store h (Ptr b (0 + (y - mStartYear v))) x =
                Ret {| arrays := <[b := <[Z.to_nat (0 + (y - mStartYear v)) := x]> l]> (arrays h);
                       nextblock := nextblock h |})
    by (apply store_elem; auto; lia).
  eexists. split; [exact Hst |].
  assert (Hv' : YearVector_constructed
                  {| arrays := <[b := <[Z.to_nat (0 + (y - mStartYear v)) := x]> l]> (arrays h);
                     nextblock := nextblock h |} v).
  { split; [| exact Hsz]. eapply store_constructed; [exact Hst |].
    exists b, l. repeat split; auto. }
  split; [exact Hv' |].
  assert (Hrd := load_store_same _ _ _ _ Hst).
  split.
  { destruct (YearVector_index_in_range Debug _ v y Hv' Hy) as (x1 & Hx1 & Hidx1).
    rewrite Hd in Hx1, Hidx1. cbn [ptr_add] in Hx1, Hidx1.
    rewrite Hrd in Hx1. injection Hx1 as <-.
    rewrite Hidx1. cbn [passes]. by rewrite Hx. }
  split; [exact Hrd |].
  assert (Hoff : 0 + (y' - mStartYear v) <> 0 + (y - mStartYear v)) by lia.
  split; [cbn [slot]; rewrite Hd; cbn [ptr_add]; intros [= E]; lia |].
  assert (Hother := load_store_other_offset _ _ _ _ _ _ Hst Hoff).
  split; [cbn [slot]; rewrite Hd; cbn [ptr_add]; exact Hother |].
  destruct (YearVector_index_in_range Debug _ v y' Hv' Hy') as (x1 & Hx1 & Hidx1).
  destruct (YearVector_index_in_range Debug h v y' Hv Hy') as (x2 & Hx2 & Hidx2).
  rewrite Hd in Hx1, Hx2. cbn [ptr_add] in Hx1, Hx2.
  rewrite Hother, Hx2 in Hx1. injection Hx1 as <-.
  by rewrite Hidx1, Hidx2.
Qed.

(** ** [PeriodVector] construction *)

(** X9.  When the period count [getmaxper()] is between 0 and [UINT_MAX], a
    constructed [PeriodVector] has exactly that many slots, each holding
    the default value, and indexing by a position [i] below the count goes
    to slot [i] (a debug build first asserts [isValidNumber] on the value
    found there). *)
Theorem PeriodVector_ctor_size_fill_index bld this d h i :
  0 <= maxper <= UINT_MAX -> 0 <= i < maxper ->
  let h' := (PeriodVector_ctor this d h).1 in
  let v := (PeriodVector_ctor this d h).2 in
  size (pv_base v) = maxper /\
  contents h' (pv_base v) = Some (replicate (Z.to_nat maxper) d) /\
  load h' (ptr_add (mData (pv_base v)) i) = Ret d /\
  PeriodVector_index bld v i h' =
    if passes bld d then Ret (ptr_add (mData (pv_base v)) i) else AssertionFailed.
Proof.
  intros Hm Hi h' v.
  destruct (PeriodVector_ctor_constructed this d h Hm) as [Hc Hs].
  fold h' v in Hc, Hs.
  assert (Hcont : contents h' (pv_base v) = Some (replicate (Z.to_nat maxper) d)).
  { subst h' v. unfold PeriodVector_ctor.
    rewrite (surjective_pairing (TimeVectorBase_ctor this (to_uint maxper) d h)).
    cbn [fst snd pv_base]. rewrite TimeVectorBase_ctor_contents.
    by rewrite to_uint_small by exact Hm. }
  destruct (PeriodVector_index_in_range bld h' v i Hc) as (x & Hx & Hidx);
    [rewrite Hs; exact Hi |].
  assert (x = d) as ->.
  { destruct (constructed_elem h' (pv_base v) i Hc) as (l & x' & Hl & Hx' & Hload);
      [unfold size in Hs; rewrite Hs; exact Hi |].
    rewrite Hcont in Hl. injection Hl as <-.
    apply lookup_replicate in Hx' as [-> _].
    rewrite Hload in Hx. by injection Hx as ->. }
  repeat split; [exact Hs | exact Hcont | exact Hx | exact Hidx].
Qed.

(** ** A [YearVector] whose end year is below its start year *)

(** X10.  A [YearVector] constructed with [aEndYear < aStartYear] has no
    year in range: in a debug build [operator[]] fails its assertion for
    every year.  Its array is empty when the end year is just below the
    start year, and otherwise has the wrapped-around number
    [aEndYear - aStartYear + 1 + 2^32] of slots, none of which a year
    reaches. *)
Theorem YearVector_reversed_range this aStartYear aEndYear d h y :
  0 <= aEndYear -> aEndYear < aStartYear -> aStartYear <= UINT_MAX ->
  let h' := (YearVector_ctor this aStartYear aEndYear d h).1 in
  let v := (YearVector_ctor this aStartYear aEndYear d h).2 in
  size (yv_base v) =
    (if aEndYear + 1 =? aStartYear then 0
     else aEndYear - aStartYear + 1 + (UINT_MAX + 1)) /\
  YearVector_index Debug v y h' = AssertionFailed.
Proof.
  intros He Hlt Hs h' v.
  assert (Hout : y < mStartYear v \/ mEndYear v < y).
  { subst v. rewrite YearVector_ctor_members. cbn [mStartYear mEndYear]. lia. }
  split.
  - subst v. rewrite YearVector_ctor_members. cbn [yv_base].
    rewrite TimeVectorBase_ctor_members. unfold size. cbn [mSize].
    unfold to_uint, UINT_MAX in *.
    destruct (aEndYear + 1 =? aStartYear) eqn:E.
    + apply Z.eqb_eq in E.
      replace (aEndYear - aStartYear + 1) with 0 by lia. reflexivity.
    + apply Z.eqb_neq in E.
      rewrite <- (Z.mod_add (aEndYear - aStartYear + 1) 1 (4294967295 + 1)) by lia.
      rewrite Z.mod_small; lia.
  - by apply YearVector_index_out_of_range.
Qed.

(** ** Builds without assertions *)

(** X11.  With [NDEBUG], [operator[]] of a constructed vector checks
    nothing: within the bounds it returns the reference to the slot
    whatever the slot holds, and outside the bounds (a year before the
    start year or after the end year, a position at or beyond the size)
    the access is undefined behaviour instead of a failed assertion. *)
Theorem operator_index_without_assertions h yv pv y i :
  YearVector_constructed h yv -> 0 <= mStartYear yv <= UINT_MAX ->
  constructed h (pv_base pv) ->
  0 <= y <= SIZE_MAX -> 0 <= i <= SIZE_MAX ->
  (mStartYear yv <= y <= mEndYear yv ->
     YearVector_index Release yv y h = Ret (slot (IsYearVector yv) y)) /\
  (y < mStartYear yv \/ mEndYear yv < y ->
     YearVector_index Release yv y h = Undefined) /\
  (i < size (pv_base pv) ->
     PeriodVector_index Release pv i h = Ret (slot (IsPeriodVector pv) i)) /\
  (size (pv_base pv) <= i -> PeriodVector_index Release pv i h = Undefined).
Proof.
  intros Hyv Hs Hpv Hy Hi. repeat split.
  - intros Hin.
    destruct (YearVector_index_in_range Release h yv y Hyv Hin) as (x & _ & Hidx).
    exact Hidx.
  - intros Hout. destruct Hyv as [Hc Hsz].
    assert (Hm : 0 <= mSize (yv_base yv) <= UINT_MAX)
      by (destruct Hc as (? & ? & ? & ? & ? & ? & ?); lia).
    unfold YearVector_index, element_ref. cbn [assert_ bind].
    rewrite constructed_no_elem; [reflexivity | exact Hc |].
    right. unfold to_size_t, SIZE_MAX, UINT_MAX in *.
    destruct Hout as [Hlo | Hhi].
    + rewrite <- (Z.mod_add (y - mStartYear yv) 1 (18446744073709551615 + 1)) by lia.
      rewrite Z.mod_small; lia.
    + rewrite Z.mod_small; lia.
  - intros Hin.
    destruct (PeriodVector_index_in_range Release h pv i Hpv) as (x & _ & Hidx);
      [lia | exact Hidx].
  - intros Hout. by apply PeriodVector_index_release_out_of_range.
Qed.

(** ** Assigning one [YearVector] to another *)

(** X12.  [v = w] for two constructed [YearVector] objects that are not the
    same object: [v] takes the start and end year of [w] and a fresh array
    with the elements of [w], so it is again sized for its year range and
    every year of [w] reads in [v] what it reads in [w]; the array [v] had
    is released; [w] is unchanged. *)
Theorem YearVector_assign_other v w h lw y :
  YearVector_constructed h v -> YearVector_constructed h w ->
  contents h (yv_base w) = Some lw ->
  this_addr (yv_base v) <> this_addr (yv_base w) ->
  mData (yv_base v) <> mData (yv_base w) ->
  mStartYear w <= y <= mEndYear w ->
  exists h1 v',
    YearVector_assign v w h = Ret (h1, v') /\
    mStartYear v' = mStartYear w /\ mEndYear v' = mEndYear w /\
    YearVector_constructed h1 v' /\
    contents h1 (yv_base v') = Some lw /\
    contents h1 (yv_base v) = None /\
    YearVector_constructed h1 w /\ contents h1 (yv_base w) = Some lw /\
    load h1 (slot (IsYearVector v') y) = load h (slot (IsYearVector w) y).
Proof.
  intros [Hv Hvsz] [Hw Hwsz] Hlw Haddr Hdist Hy.
  pose proof Hv as (bv & lv & Hdv & Hbv & Hlv & Hmv & Hfv).
  pose proof Hw as (bw & l & Hdw & Hbw & Hl & Hmw & Hfw).
  assert (l = lw) as ->.
  { unfold contents in Hlw. rewrite Hdw in Hlw. simpl in Hlw. congruence. }
  assert (Hne : bv <> bw) by (intros ->; apply Hdist; by rewrite Hdv, Hdw).
  unfold YearVector_assign.
  replace (this_addr (yv_base v) =? this_addr (yv_base w))%positive with false
    by (symmetry; by apply Pos.eqb_neq).
  cbn [negb].
  rewrite (operator_assign_spec (yv_base v) (yv_base w) h bv lw Hv Hw Hlw Haddr Hdv Hdist).
  cbn [bind fst snd].
  eexists _, _. split; [reflexivity |].
  cbn [mStartYear mEndYear yv_base].
  split; [reflexivity |]. split; [reflexivity |].
  split.
  { split; [| exact Hwsz].
    exists (nextblock h), lw. cbn [mData mSize arrays nextblock].
    repeat split; auto; [apply lookup_insert_eq | lia]. }
  split.
  { unfold contents. cbn [mData Z.eqb arrays]. apply lookup_insert_eq. }
  split.
  { unfold contents. rewrite Hdv. cbn [Z.eqb arrays].
    rewrite lookup_insert_ne by lia. apply lookup_delete_eq. }
  assert (Hkeep : (<[nextblock h := lw]> (delete bv (arrays h))) !! bw = Some lw).
  { rewrite lookup_insert_ne by lia. by rewrite lookup_delete_ne by exact Hne. }
  split.
  { split; [| exact Hwsz].
    exists bw, lw. cbn [arrays nextblock]. repeat split; auto. lia. }
  split.
  { unfold contents. rewrite Hdw. cbn [Z.eqb arrays]. exact Hkeep. }
  cbn [slot yv_base mData mStartYear]. rewrite Hdw. cbn [ptr_add].
  unfold load. cbn [arrays]. by rewrite lookup_insert_eq, Hbw.
Qed.

End WithElements.

Arguments arrays {T} h.
Arguments nextblock {T} h.
Arguments load {T} h p.
Arguments deref {T} h it.
Arguments store {T} h p x.
Arguments store_all {T} h d ws.
Arguments contents {T} h v.
Arguments constructed {T} h v.
Arguments independent_copy {T} h c a la.
Arguments YearVector_constructed {T} h v.
Arguments derived_constructed {T} h v.
Arguments TimeVectorBase_ctor {T} this%_positive aSize%_Z aDefaultValue h.
Arguments TimeVectorBase_copy {T} T_default this%_positive aOther h.
Arguments operator_assign {T} T_default v aOther h.
Arguments operator_eq {T} T_eqb v aOther h.
Arguments assign {T} bld v aPositions aValue h.
Arguments YearVector_ctor {T} this%_positive (aStartYear aEndYear)%_Z aDefaultValue h.
Arguments YearVector_index {T} isValidNumber bld v aYear h.
Arguments PeriodVector_ctor {T} maxper%_Z this%_positive aDefaultValue h.
Arguments PeriodVector_index {T} isValidNumber bld v aIndex h.
Arguments operator_index {T} isValidNumber bld v aIndex h.

(** * The vectors of [double] at concrete arguments *)

(** C4, at the years 2000 to 2010 and the year 2005. *)
Lemma YearVector_ctor_size_fill_index_witness :
  let h' := (YearVector_ctor 1 2000 2010 double_zero (empty_heap double)).1 in
  let v := (YearVector_ctor 1 2000 2010 double_zero (empty_heap double)).2 in
  (2000 <= 2010 /\ 2010 - 2000 + 1 <= UINT_MAX /\ 2000 <= 2005 <= 2010) /\
  size (yv_base v) = 11 /\
  contents h' (yv_base v) = Some (replicate 11 double_zero) /\
  load h' (Ptr 1 5) = Ret double_zero /\
  YearVector_index isValidNumber_double Debug v 2005 h' = Ret (Ptr 1 5).
Proof.
  assert (H1 : 2000 <= 2010) by lia.
  assert (H2 : 2010 - 2000 + 1 <= UINT_MAX) by (unfold UINT_MAX; lia).
  assert (H3 : 2000 <= 2005 <= 2010) by lia.
  split; [exact (conj H1 (conj H2 H3)) |].
  exact (YearVector_ctor_size_fill_index double isValidNumber_double Debug 1%positive
           2000 2010 double_zero (empty_heap double) 2005 H1 H2 H3).
Defined.

(** C4 as stated fails for the range of all [unsigned int] years: the
    number of years, 4294967296, wraps to 0, so the vector has no slot and
    indexing by a year of the range reads outside the array. *)
Lemma YearVector_ctor_full_range_counterexample :
  let h' := (YearVector_ctor 1 0 4294967295 double_zero (empty_heap double)).1 in
  let v := (YearVector_ctor 1 0 4294967295 double_zero (empty_heap double)).2 in
  0 <= 4294967295 /\
  size (yv_base v) = 0 /\
  size (yv_base v) <> 4294967295 - 0 + 1 /\
  contents h' (yv_base v) = Some [] /\
  YearVector_index isValidNumber_double Debug v 0 h' = Undefined.
Proof.
  split; [lia |]. split; [reflexivity |]. split; [discriminate |].
  split; reflexivity.
Qed.

(** C5: [find] on the years 2000 to 2010.  For the year 2005 the iterator
    wraps the integer 5, not the address of slot 5, and cannot be
    dereferenced; for the year 1999 it is [end()]. *)
Theorem find_2005_wraps_bare_offset :
  let h' := (YearVector_ctor 1 2000 2010 double_zero (empty_heap double)).1 in
  let v := (YearVector_ctor 1 2000 2010 double_zero (empty_heap double)).2 in
  find v 2005 = Iter (IntPtr 5) /\
  find v 2005 <> iter_add (begin (yv_base v)) (2005 - 2000) /\
  deref h' (iter_add (begin (yv_base v)) (2005 - 2000)) = Ret double_zero /\
  deref h' (find v 2005) = Undefined /\
  find v 1999 = end_ (yv_base v) /\
  find v 2011 = end_ (yv_base v).
Proof.
  split; [reflexivity |]. split; [discriminate |].
  repeat split; reflexivity.
Qed.

(** C6, at two vectors of three ones. *)
Lemma copy_self_assign_equality_witness :
  let ra := TimeVectorBase_ctor 1 3 double_one (empty_heap double) in
  let rb := TimeVectorBase_ctor 2 3 double_one ra.1 in
  let a := ra.2 in
  let b := rb.2 in
  let h := rb.1 in
  let ones := [double_one; double_one; double_one] in
  (constructed h a /\ constructed h b /\
   contents h a = Some ones /\ contents h b = Some ones) /\
  (exists h1 c,
     TimeVectorBase_copy double_zero 3 a h = Ret (h1, c) /\
     independent_copy h1 c a ones) /\
  (this_addr b <> this_addr a -> mData b <> mData a ->
   exists h1 b',
     operator_assign double_zero b a h = Ret (h1, b') /\
     independent_copy h1 b' a ones) /\
  operator_assign double_zero a a h = Ret (h, a) /\
  (exists r,
     operator_eq double_eqb a b h = Ret r /\
     (r = true <->
      size a = size b /\ Forall2 (fun x y => double_eqb x y = true) ones ones)).
Proof.
  intros ra rb a b h ones.
  assert (Ha : constructed h a).
  { exists 1%positive, ones. repeat split; try reflexivity; vm_compute; discriminate. }
  assert (Hb : constructed h b).
  { exists 2%positive, ones. repeat split; try reflexivity; vm_compute; discriminate. }
  assert (Hla : contents h a = Some ones) by reflexivity.
  assert (Hlb : contents h b = Some ones) by reflexivity.
  split; [exact (conj Ha (conj Hb (conj Hla Hlb))) |].
  exact (copy_self_assign_equality double double_zero double_eqb 3%positive a b h
           ones ones Ha Hb Hla Hlb).
Defined.

(** What the calls of C6 compute on these two vectors: the copy and the
    assigned-to object live in array 3, the comparison is [true], and a
    write into the copy is seen by the copy alone. *)
Example copy_assign_compare_run :
  let ra := TimeVectorBase_ctor 1 3 double_one (empty_heap double) in
  let rb := TimeVectorBase_ctor 2 3 double_one ra.1 in
  let a := ra.2 in
  let b := rb.2 in
  let h := rb.1 in
  operator_eq double_eqb a b h = Ret true /\
  (exists h1,
     TimeVectorBase_copy double_zero 3 a h =
       Ret (h1, {| this_addr := 3%positive; mData := Ptr 3 0; mSize := 3 |}) /\
     exists h2,
       store h1 (Ptr 3 1) double_zero = Ret h2 /\
       contents h2 {| this_addr := 3%positive; mData := Ptr 3 0; mSize := 3 |}
         = Some [double_one; double_zero; double_one] /\
       contents h2 a = Some [double_one; double_one; double_one] /\
       operator_eq double_eqb a {| this_addr := 3%positive; mData := Ptr 3 0; mSize := 3 |} h2
         = Ret false) /\
  (exists h1,
     operator_assign double_zero b a h =
       Ret (h1, {| this_addr := 2%positive; mData := Ptr 3 0; mSize := 3 |}) /\
     arrays h1 !! 2%positive = None /\
     contents h1 a = Some [double_one; double_one; double_one]).
Proof.
  split; [reflexivity |]. split.
  - eexists. split; [reflexivity |].
    eexists. split; [reflexivity |]. repeat split; reflexivity.
  - eexists. split; [reflexivity |]. split; reflexivity.
Qed.

(** C7, at a vector over 2000 to 2010 holding zeros and the year 2005. *)
Lemma operator_index_bounds_checked_witness :
  let h' := (YearVector_ctor 1 2000 2010 double_zero (empty_heap double)).1 in
  let v := IsYearVector (YearVector_ctor 1 2000 2010 double_zero (empty_heap double)).2 in
  (derived_constructed h' v /\ 0 <= 2005) /\
  (in_bounds v 2005 ->
     exists x, load h' (slot v 2005) = Ret x /\
       operator_index isValidNumber_double Debug v 2005 h' =
         if isValidNumber_double x then Ret (slot v 2005) else AssertionFailed) /\
  (~ in_bounds v 2005 ->
     operator_index isValidNumber_double Debug v 2005 h' = AssertionFailed).
Proof.
  intros h' v.
  assert (Hc : derived_constructed h' v).
  { split; [| reflexivity].
    exists 1%positive, (replicate 11 double_zero).
    repeat split; try reflexivity; vm_compute; discriminate. }
  assert (Hk : 0 <= 2005) by lia.
  split; [exact (conj Hc Hk) |].
  exact (operator_index_bounds_checked double isValidNumber_double h' v 2005 Hc Hk).
Defined.

(** C7 as stated fails on a slot that holds a NaN: the year is within
    bounds, yet the debug build returns no reference. *)
Lemma operator_index_nan_counterexample :
  let h' := (YearVector_ctor 1 2000 2010 double_nan (empty_heap double)).1 in
  let v := IsYearVector (YearVector_ctor 1 2000 2010 double_nan (empty_heap double)).2 in
  in_bounds v 2005 /\
  load h' (slot v 2005) = Ret double_nan /\
  operator_index isValidNumber_double Debug v 2005 h' = AssertionFailed.
Proof.
  split; [simpl; lia |]. split; reflexivity.
Qed.

(** C9, at a vector over 2000 to 2010 holding zeros: the reference to the
    slot of 2005 is handed out, and a NaN is written through it. *)
Lemma operator_index_checks_on_access_witness :
  let h' := (YearVector_ctor 1 2000 2010 double_zero (empty_heap double)).1 in
  let v := IsYearVector (YearVector_ctor 1 2000 2010 double_zero (empty_heap double)).2 in
  (operator_index isValidNumber_double Debug v 2005 h' = Ret (Ptr 1 5) /\
   isValidNumber_double double_nan = false) /\
  (exists x0, load h' (Ptr 1 5) = Ret x0 /\ isValidNumber_double x0 = true) /\
  (exists h2, store h' (Ptr 1 5) double_nan = Ret h2 /\
              load h2 (Ptr 1 5) = Ret double_nan /\
              operator_index isValidNumber_double Debug v 2005 h2 = AssertionFailed).
Proof.
  intros h' v.
  assert (Hp : operator_index isValidNumber_double Debug v 2005 h' = Ret (Ptr 1 5))
    by reflexivity.
  assert (Hx : isValidNumber_double double_nan = false) by reflexivity.
  split; [exact (conj Hp Hx) |].
  exact (operator_index_checks_on_access double isValidNumber_double h' v 2005
           (Ptr 1 5) double_nan Hp Hx).
Defined.

(** C9 as stated fails: after [v[ 2005 ] = NaN] the vector stores a number
    that is not valid, an iterator reads it back, and the next
    [v[ 2005 ]] does not pass its assertion. *)
Lemma write_nan_counterexample :
  let h' := (YearVector_ctor 1 2000 2010 double_zero (empty_heap double)).1 in
  let v := (YearVector_ctor 1 2000 2010 double_zero (empty_heap double)).2 in
  exists p h2,
    YearVector_index isValidNumber_double Debug v 2005 h' = Ret p /\
    store h' p double_nan = Ret h2 /\
    deref h2 (iter_add (begin (yv_base v)) 5) = Ret double_nan /\
    isValidNumber_double double_nan = false /\
    YearVector_index isValidNumber_double Debug v 2005 h2 = AssertionFailed.
Proof.
  eexists. eexists.
  split; [reflexivity |]. split; [reflexivity |].
  repeat split; reflexivity.
Qed.

(** [last()] at a vector of three elements and at an empty one. *)
Lemma last_position_witness :
  let v := (TimeVectorBase_ctor 1 3 double_zero (empty_heap double)).2 in
  let e := (TimeVectorBase_ctor 1 0 double_zero (empty_heap double)).2 in
  (0 <= size v <= INT_MAX /\ 0 <= size e <= INT_MAX) /\
  (last v = Iter (Ptr 1 2) /\ last_const v = Iter (Ptr 1 2)) /\
  (last e = begin e /\ last_const e = begin e).
Proof.
  intros v e.
  assert (Hv : 0 <= size v <= INT_MAX) by (vm_compute; split; discriminate).
  assert (He : 0 <= size e <= INT_MAX) by (vm_compute; split; discriminate).
  split; [exact (conj Hv He) |]. split.
  - exact (proj1 (last_position v Hv) ltac:(vm_compute; discriminate)).
  - exact (proj2 (last_position e He) eq_refl).
Defined.

(** C10.  [last()] of a vector that is not empty is not always at position
    [size - 1]: a [YearVector] over the years 0 to 2147483648 has 2147483649
    elements, [int( size() )] is negative, and [last()], on a constant
    vector or not, is at position 0, which is [begin()]. *)
Theorem last_of_2147483649_elements_is_begin :
  let v := yv_base (YearVector_ctor 1 0 2147483648 double_zero (empty_heap double)).2 in
  size v = 2147483649 /\
  1 <= size v /\
  last v = begin v /\
  last_const v = begin v /\
  last v <> iter_add (begin v) (size v - 1) /\
  last_const v <> iter_add (begin v) (size v - 1).
Proof.
  intros v. subst v. rewrite YearVector_ctor_members. cbn [yv_base].
  rewrite TimeVectorBase_ctor_members.
  split; [reflexivity |]. split; [vm_compute; discriminate |].
  split; [reflexivity |]. split; [reflexivity |]. split; discriminate.
Qed.

(** A [PeriodVector] of seven periods: position 6 is the last slot,
    position 7 fails the assertion of a debug build and is undefined
    without it. *)
Example PeriodVector_index_run :
  let r := PeriodVector_ctor 7 1 double_zero (empty_heap double) in
  size (pv_base r.2) = 7 /\
  PeriodVector_index isValidNumber_double Debug r.2 6 r.1 = Ret (Ptr 1 6) /\
  PeriodVector_index isValidNumber_double Debug r.2 7 r.1 = AssertionFailed /\
  PeriodVector_index isValidNumber_double Release r.2 7 r.1 = Undefined /\
  last (pv_base r.2) = Iter (Ptr 1 6) /\
  end_ (pv_base r.2) = Iter (Ptr 1 7).
Proof. repeat split; reflexivity. Qed.

(** * The further properties at concrete arguments *)

Arguments TimeVectorBase_dtor {T} v h.
Arguments convertToVector {T} T_to_double aTimeVector h.
Arguments YearVector_assign {T} T_default v aOther h.
Arguments passes {T} isValidNumber bld x.
Arguments operator_ne {T} T_eqb v aOther h.

(** A constructed object shown by its array. *)
Ltac show_constructed b l :=
  exists b, l; repeat split; try reflexivity; vm_compute; discriminate.

(** X1, at a vector of three ones and [assign( 2, 0.0 )]. *)
Lemma assign_fills_prefix_witness :
  let r := TimeVectorBase_ctor 1 3 double_one (empty_heap double) in
  let h := r.1 in
  let v := r.2 in
  let ones := [double_one; double_one; double_one] in
  (constructed h v /\ contents h v = Some ones /\ 0 <= 2 <= size v) /\
  exists h',
    assign Debug v 2 double_zero h = Ret h' /\
    contents h' v = Some [double_zero; double_zero; double_one] /\
    constructed h' v /\
    forall b', mData v <> Ptr b' 0 -> arrays h' !! b' = arrays h !! b'.
Proof.
  intros r h v ones.
  assert (Hc : constructed h v) by show_constructed 1%positive ones.
  assert (Hl : contents h v = Some ones) by reflexivity.
  assert (Hn : 0 <= 2 <= size v) by (vm_compute; split; discriminate).
  split; [exact (conj Hc (conj Hl Hn)) |].
  exact (assign_fills_prefix double Debug h v 2 double_zero ones Hc Hl Hn).
Defined.

(** X2, at a vector of three ones and [assign( 4, 0.0 )]. *)
Lemma assign_beyond_size_witness :
  let r := TimeVectorBase_ctor 1 3 double_one (empty_heap double) in
  let h := r.1 in
  let v := r.2 in
  (constructed h v /\ size v < 4) /\
  assign Debug v 4 double_zero h = AssertionFailed /\
  assign Release v 4 double_zero h = Undefined.
Proof.
  intros r h v.
  assert (Hc : constructed h v)
    by show_constructed 1%positive [double_one; double_one; double_one].
  assert (Hn : size v < 4) by reflexivity.
  split; [exact (conj Hc Hn) |].
  exact (assign_beyond_size double h v 4 double_zero Hc Hn).
Defined.

(** X3, at two vectors of three ones: a third vector is constructed, and
    one is copied from the second. *)
Lemma construction_leaves_others_witness :
  let ra := TimeVectorBase_ctor 1 3 double_one (empty_heap double) in
  let rb := TimeVectorBase_ctor 2 3 double_one ra.1 in
  let v := ra.2 in
  let a := rb.2 in
  let h := rb.1 in
  let ones := [double_one; double_one; double_one] in
  (constructed h v /\ constructed h a /\ contents h a = Some ones) /\
  (constructed (TimeVectorBase_ctor 3 2 double_zero h).1 v /\
   contents (TimeVectorBase_ctor 3 2 double_zero h).1 v = contents h v /\
   mData (TimeVectorBase_ctor 3 2 double_zero h).2 <> mData v) /\
  (exists h1 c,
     TimeVectorBase_copy double_zero 3 a h = Ret (h1, c) /\
     constructed h1 v /\ contents h1 v = contents h v /\ mData c <> mData v).
Proof.
  intros ra rb v a h ones.
  assert (Hv : constructed h v) by show_constructed 1%positive ones.
  assert (Ha : constructed h a) by show_constructed 2%positive ones.
  assert (Hla : contents h a = Some ones) by reflexivity.
  split; [exact (conj Hv (conj Ha Hla)) |].
  exact (construction_leaves_others double double_zero 3%positive 2 double_zero a ones h v
           Hv Ha Hla).
Defined.

(** X4, at a vector of three ones in an otherwise empty store. *)
Lemma dtor_releases_own_array_witness :
  let r := TimeVectorBase_ctor 1 3 double_one (empty_heap double) in
  let h := r.1 in
  let v := r.2 in
  (constructed h v /\ arrays h !! nextblock h = None) /\
  (exists h',
     TimeVectorBase_dtor v h = Ret h' /\
     contents h' v = None /\
     (forall i, load h' (ptr_add (mData v) i) = Undefined) /\
     TimeVectorBase_dtor v h' = Undefined /\
     (forall w, constructed h w -> mData w <> mData v ->
                constructed h' w /\ contents h' w = contents h w)) /\
  (exists h',
     TimeVectorBase_dtor (TimeVectorBase_ctor 2 3 double_zero h).2
                         (TimeVectorBase_ctor 2 3 double_zero h).1 = Ret h' /\
     arrays h' = arrays h).
Proof.
  intros r h v.
  assert (Hc : constructed h v)
    by show_constructed 1%positive [double_one; double_one; double_one].
  assert (Hf : arrays h !! nextblock h = None) by reflexivity.
  split; [exact (conj Hc Hf) |].
  exact (dtor_releases_own_array double 2%positive 3 double_zero h v Hc Hf).
Defined.

(** X5, at a vector of three ones. *)
Lemma iterators_span_the_elements_witness :
  let r := TimeVectorBase_ctor 1 3 double_one (empty_heap double) in
  let h := r.1 in
  let v := r.2 in
  let ones := [double_one; double_one; double_one] in
  (constructed h v /\ contents h v = Some ones) /\
  ptr_diff (iter_base (end_ v)) (iter_base (begin v)) = Some (size v) /\
  (forall i, 0 <= i < size v ->
     exists x, ones !! Z.to_nat i = Some x /\ deref h (iter_add (begin v) i) = Ret x) /\
  deref h (end_ v) = Undefined /\
  (1 <= size v <= INT_MAX ->
     iter_add (last v) 1 = end_ v /\
     exists x, ones !! Z.to_nat (size v - 1) = Some x /\ deref h (last v) = Ret x) /\
  (size v = 0 -> last v = end_ v /\ deref h (last v) = Undefined).
Proof.
  intros r h v ones.
  assert (Hc : constructed h v) by show_constructed 1%positive ones.
  assert (Hl : contents h v = Some ones) by reflexivity.
  split; [exact (conj Hc Hl) |].
  exact (iterators_span_the_elements double h v ones Hc Hl).
Defined.

(** X6, at a vector of three ones. *)
Lemma copy_compares_equal_witness :
  let r := TimeVectorBase_ctor 1 3 double_one (empty_heap double) in
  let h := r.1 in
  let a := r.2 in
  let ones := [double_one; double_one; double_one] in
  (constructed h a /\ contents h a = Some ones) /\
  exists h1 c r,
    TimeVectorBase_copy double_zero 2 a h = Ret (h1, c) /\
    operator_eq double_eqb c a h1 = Ret r /\
    operator_eq double_eqb a c h1 = Ret r /\
    operator_ne double_eqb c a h1 = Ret (negb r) /\
    (r = true <-> Forall (fun x => double_eqb x x = true) ones).
Proof.
  intros r h a ones.
  assert (Hc : constructed h a) by show_constructed 1%positive ones.
  assert (Hl : contents h a = Some ones) by reflexivity.
  split; [exact (conj Hc Hl) |].
  exact (copy_compares_equal double double_zero double_eqb 2%positive a h ones Hc Hl).
Defined.

(** X7, at a [PeriodVector<double>] of three periods holding ones. *)
Lemma convertToVector_elements_witness :
  let r := PeriodVector_ctor 3 1 double_one (empty_heap double) in
  let h := r.1 in
  let v := r.2 in
  let ones := [double_one; double_one; double_one] in
  (constructed h (pv_base v) /\ contents h (pv_base v) = Some ones) /\
  convertToVector (fun x : double => x) v h = Ret ((fun x : double => x) <$> ones) /\
  Z.of_nat (length ((fun x : double => x) <$> ones)) = size (pv_base v).
Proof.
  intros r h v ones.
  assert (Hc : constructed h (pv_base v)) by show_constructed 1%positive ones.
  assert (Hl : contents h (pv_base v) = Some ones) by reflexivity.
  split; [exact (conj Hc Hl) |].
  exact (convertToVector_elements double (fun x : double => x) h v ones Hc Hl).
Defined.

(** X8, at a vector over 2000 to 2010 holding zeros: a one is written at
    2005, and 2006 is looked at. *)
Lemma YearVector_write_then_read_witness :
  let r := YearVector_ctor 1 2000 2010 double_zero (empty_heap double) in
  let h := r.1 in
  let v := r.2 in
  (YearVector_constructed h v /\
   mStartYear v <= 2005 <= mEndYear v /\ mStartYear v <= 2006 <= mEndYear v /\
   2006 <> 2005 /\ isValidNumber_double double_one = true /\
   YearVector_index isValidNumber_double Debug v 2005 h = Ret (Ptr 1 5)) /\
  exists h',
    store h (Ptr 1 5) double_one = Ret h' /\
    YearVector_constructed h' v /\
    YearVector_index isValidNumber_double Debug v 2005 h' = Ret (Ptr 1 5) /\
    load h' (Ptr 1 5) = Ret double_one /\
    slot (IsYearVector v) 2006 <> Ptr 1 5 /\
    load h' (slot (IsYearVector v) 2006) = load h (slot (IsYearVector v) 2006) /\
    YearVector_index isValidNumber_double Debug v 2006 h' =
      YearVector_index isValidNumber_double Debug v 2006 h.
Proof.
  intros r h v.
  assert (Hc : YearVector_constructed h v).
  { split; [| reflexivity]. show_constructed 1%positive (replicate 11 double_zero). }
  assert (Hy : mStartYear v <= 2005 <= mEndYear v) by (vm_compute; split; discriminate).
  assert (Hy' : mStartYear v <= 2006 <= mEndYear v) by (vm_compute; split; discriminate).
  assert (Hne : 2006 <> 2005) by discriminate.
  assert (Hx : isValidNumber_double double_one = true) by reflexivity.
  assert (Hp : YearVector_index isValidNumber_double Debug v 2005 h = Ret (Ptr 1 5))
    by reflexivity.
  split; [exact (conj Hc (conj Hy (conj Hy' (conj Hne (conj Hx Hp))))) |].
  exact (YearVector_write_then_read double isValidNumber_double h v 2005 2006 double_one
           (Ptr 1 5) Hc Hy Hy' Hne Hx Hp).
Defined.

(** X9, at seven periods and position 6. *)
Lemma PeriodVector_ctor_size_fill_index_witness :
  let h' := (PeriodVector_ctor 7 1 double_zero (empty_heap double)).1 in
  let v := (PeriodVector_ctor 7 1 double_zero (empty_heap double)).2 in
  (0 <= 7 <= UINT_MAX /\ 0 <= 6 < 7) /\
  size (pv_base v) = 7 /\
  contents h' (pv_base v) = Some (replicate 7 double_zero) /\
  load h' (Ptr 1 6) = Ret double_zero /\
  PeriodVector_index isValidNumber_double Debug v 6 h' = Ret (Ptr 1 6).
Proof.
  assert (Hm : 0 <= 7 <= UINT_MAX) by (unfold UINT_MAX; lia).
  assert (Hi : 0 <= 6 < 7) by lia.
  split; [exact (conj Hm Hi) |].
  exact (PeriodVector_ctor_size_fill_index double isValidNumber_double 7 Debug 1%positive
           double_zero (empty_heap double) 6 Hm Hi).
Defined.

(** X10, at the start year 2001, the end year 2000 and the year 2000: the
    vector is empty. *)
Lemma YearVector_reversed_range_witness :
  let h' := (YearVector_ctor 1 2001 2000 double_zero (empty_heap double)).1 in
  let v := (YearVector_ctor 1 2001 2000 double_zero (empty_heap double)).2 in
  (0 <= 2000 /\ 2000 < 2001 /\ 2001 <= UINT_MAX) /\
  size (yv_base v) = 0 /\
  YearVector_index isValidNumber_double Debug v 2000 h' = AssertionFailed.
Proof.
  assert (H1 : 0 <= 2000) by lia.
  assert (H2 : 2000 < 2001) by lia.
  assert (H3 : 2001 <= UINT_MAX) by (unfold UINT_MAX; lia).
  split; [exact (conj H1 (conj H2 H3)) |].
  exact (YearVector_reversed_range double isValidNumber_double 1%positive 2001 2000
           double_zero (empty_heap double) 2000 H1 H2 H3).
Defined.

(** X11, at a [YearVector] over 2000 to 2010 and a [PeriodVector] of seven
    periods in one store, the year 2011 and the position 7. *)
Lemma operator_index_without_assertions_witness :
  let ry := YearVector_ctor 1 2000 2010 double_nan (empty_heap double) in
  let rp := PeriodVector_ctor 7 2 double_nan ry.1 in
  let h := rp.1 in
  let yv := ry.2 in
  let pv := rp.2 in
  (YearVector_constructed h yv /\ 0 <= mStartYear yv <= UINT_MAX /\
   constructed h (pv_base pv) /\ 0 <= 2011 <= SIZE_MAX /\ 0 <= 7 <= SIZE_MAX) /\
  (mStartYear yv <= 2011 <= mEndYear yv ->
     YearVector_index isValidNumber_double Release yv 2011 h
       = Ret (slot (IsYearVector yv) 2011)) /\
  (2011 < mStartYear yv \/ mEndYear yv < 2011 ->
     YearVector_index isValidNumber_double Release yv 2011 h = Undefined) /\
  (7 < size (pv_base pv) ->
     PeriodVector_index isValidNumber_double Release pv 7 h
       = Ret (slot (IsPeriodVector pv) 7)) /\
  (size (pv_base pv) <= 7 ->
     PeriodVector_index isValidNumber_double Release pv 7 h = Undefined).
Proof.
  intros ry rp h yv pv.
  assert (Hy : YearVector_constructed h yv).
  { split; [| reflexivity]. show_constructed 1%positive (replicate 11 double_nan). }
  assert (Hs : 0 <= mStartYear yv <= UINT_MAX) by (vm_compute; split; discriminate).
  assert (Hp : constructed h (pv_base pv))
    by show_constructed 2%positive (replicate 7 double_nan).
  assert (H1 : 0 <= 2011 <= SIZE_MAX) by (unfold SIZE_MAX; lia).
  assert (H2 : 0 <= 7 <= SIZE_MAX) by (unfold SIZE_MAX; lia).
  split; [exact (conj Hy (conj Hs (conj Hp (conj H1 H2)))) |].
  exact (operator_index_without_assertions double isValidNumber_double h yv pv 2011 7
           Hy Hs Hp H1 H2).
Defined.

(** X12, at [v] over 2000 to 2002 holding zeros and [w] over 1990 to 1994
    holding ones, and the year 1992. *)
Lemma YearVector_assign_other_witness :
  let rv := YearVector_ctor 1 2000 2002 double_zero (empty_heap double) in
  let rw := YearVector_ctor 2 1990 1994 double_one rv.1 in
  let h := rw.1 in
  let v := rv.2 in
  let w := rw.2 in
  let ones := replicate 5 double_one in
  (YearVector_constructed h v /\ YearVector_constructed h w /\
   contents h (yv_base w) = Some ones /\
   this_addr (yv_base v) <> this_addr (yv_base w) /\
   mData (yv_base v) <> mData (yv_base w) /\
   mStartYear w <= 1992 <= mEndYear w) /\
  exists h1 v',
    YearVector_assign double_zero v w h = Ret (h1, v') /\
    mStartYear v' = mStartYear w /\ mEndYear v' = mEndYear w /\
    YearVector_constructed h1 v' /\
    contents h1 (yv_base v') = Some ones /\
    contents h1 (yv_base v) = None /\
    YearVector_constructed h1 w /\ contents h1 (yv_base w) = Some ones /\
    load h1 (slot (IsYearVector v') 1992) = load h (slot (IsYearVector w) 1992).
Proof.
  intros rv rw h v w ones.
  assert (Hv : YearVector_constructed h v).
  { split; [| reflexivity]. show_constructed 1%positive (replicate 3 double_zero). }
  assert (Hw : YearVector_constructed h w).
  { split; [| reflexivity]. show_constructed 2%positive ones. }
  assert (Hl : contents h (yv_base w) = Some ones) by reflexivity.
  assert (Ha : this_addr (yv_base v) <> this_addr (yv_base w)) by discriminate.
  assert (Hd : mData (yv_base v) <> mData (yv_base w)) by discriminate.
  assert (Hy : mStartYear w <= 1992 <= mEndYear w) by (vm_compute; split; discriminate).
  split; [exact (conj Hv (conj Hw (conj Hl (conj Ha (conj Hd Hy))))) |].
  exact (YearVector_assign_other double double_zero v w h ones 1992 Hv Hw Hl Ha Hd Hy).
Defined.

(** What the calls above compute: [assign], the conversion of a vector
    holding a NaN, the comparison of a vector holding a NaN with itself,
    and [v = w] followed by [v[ 1992 ]]. *)
Example further_runs :
  let r := TimeVectorBase_ctor 1 3 double_one (empty_heap double) in
  let rp := PeriodVector_ctor 2 1 double_nan (empty_heap double) in
  let rv := YearVector_ctor 1 2000 2002 double_zero (empty_heap double) in
  let rw := YearVector_ctor 2 1990 1994 double_one rv.1 in
  (exists h', assign Debug r.2 2 double_zero r.1 = Ret h' /\
              contents h' r.2 = Some [double_zero; double_zero; double_one]) /\
  (exists xs, convertToVector (fun x : double => x) rp.2 rp.1 = Ret xs /\
              length xs = 2%nat /\
              (isValidNumber_double <$> xs) = [false; false]) /\
  operator_eq double_eqb (pv_base rp.2) (pv_base rp.2) rp.1 = Ret false /\
  (exists h1 v',
     YearVector_assign double_zero rv.2 rw.2 rw.1 = Ret (h1, v') /\
     YearVector_index isValidNumber_double Debug v' 1992 h1 = Ret (Ptr 3 2) /\
     load h1 (Ptr 3 2) = Ret double_one /\
     YearVector_index isValidNumber_double Debug v' 2001 h1 = AssertionFailed).
Proof.
  split; [eexists; split; reflexivity |].
  split; [eexists; repeat split; reflexivity |].
  split; [reflexivity |].
  eexists. eexists. split; [reflexivity |]. repeat split; reflexivity.
Qed.

End TimeVector.

(** * World: the calibration predicate *)

Module World.

Section Regions.

(** A region, and [Region::isAllCalibrated( period, calAccuracy,
    printWarnings )]: the regions are collaborators outside this core. *)
Variable Region : Type.
Variable Region_isAllCalibrated : Region -> Z -> TimeVector.double -> bool -> bool.

(** The members of [World] the predicate and the switch read. *)
Record World : Type := {
  regions : list Region;    (* std::vector<Region*> regions *)
  doCalibrations : bool     (* bool doCalibrations *)
}.

(** Modelled from the spec: the body of [World::isAllCalibrated], which
    [world.h] only declares.  The spec: "true only if every owned unit
    reports calibrated for that period", and "returns false if any single
    owned unit is not calibrated for the queried period, true only if all
    are".  The owned units are asked in their order and the answers are
    and-ed; [printWarnings] is "diagnostic verbosity only". *)
Fixpoint allCalibrated (rs : list Region) (period : Z)
    (calAccuracy : TimeVector.double) (printWarnings : bool) : bool :=
  match rs with
  | [] => true
  | r :: rs' =>
      Region_isAllCalibrated r period calAccuracy printWarnings
      && allCalibrated rs' period calAccuracy printWarnings
  end.

Definition isAllCalibrated (w : World) (period : Z)
    (calAccuracy : TimeVector.double) (printWarnings : bool) : bool :=
  allCalibrated (regions w) period calAccuracy printWarnings.

Definition getCalibrationSetting (w : World) : bool := doCalibrations w.

Lemma allCalibrated_true rs period acc pw :
  allCalibrated rs period acc pw = true <->
  forall r, In r rs -> Region_isAllCalibrated r period acc pw = true.
Proof.
  induction rs as [| r rs IH]; simpl.
  - split; [intros _ r [] | reflexivity].
  - rewrite andb_true_iff, IH. split.
    + intros [Hr Hrs] r' [<- | Hin]; [exact Hr | by apply Hrs].
    + intros Hall. split; [apply Hall; by left | intros r' Hin; apply Hall; by right].
Qed.

(** C8.  [isAllCalibrated] is [true] exactly when every region the world
    owns reports calibrated for the period, and it is [false] as soon as
    one of them does not. *)
Theorem isAllCalibrated_iff_every_region w period acc pw :
  (isAllCalibrated w period acc pw = true <->
   forall r, In r (regions w) -> Region_isAllCalibrated r period acc pw = true) /\
  ((exists r, In r (regions w) /\ Region_isAllCalibrated r period acc pw = false) ->
   isAllCalibrated w period acc pw = false).
Proof.
  unfold isAllCalibrated. split; [apply allCalibrated_true |].
  intros (r & Hin & Hr).
  destruct (allCalibrated (regions w) period acc pw) eqn:E; [| reflexivity].
  rewrite (proj1 (allCalibrated_true _ _ _ _) E r Hin) in Hr. discriminate.
Qed.

End Regions.

(** Three regions that answer with a flag of their own: one region that is
    not calibrated makes the world's answer [false]. *)
Example isAllCalibrated_run :
  let answer := fun (r : bool) (_ : Z) (_ : TimeVector.double) (_ : bool) => r in
  isAllCalibrated bool answer
    {| regions := [true; true; true]; doCalibrations := true |}
    3 TimeVector.double_zero false = true /\
  isAllCalibrated bool answer
    {| regions := [true; false; true]; doCalibrations := true |}
    3 TimeVector.double_zero false = false /\
  isAllCalibrated bool answer
    {| regions := []; doCalibrations := true |}
    3 TimeVector.double_zero false = true.
Proof. repeat split; reflexivity. Qed.

End World.

(** * Logit shares among the children of a subsector

    [sectors/include/subsector.h] declares [Subsector::calcShare] and gives
    no body; the model below follows the description of the operation.  The
    arithmetic is that of [double]; the accuracy of a result is stated
    through the real number a [double] stands for. *)

Module Subsector.

Import PrimFloat.

Local Abbreviation double := TimeVector.double.

(** ** Doubles as real numbers *)







(** ** The subsector and its children *)













Section Shares.

Local Set Default Proof Using "Type".

(** [std::pow] of [<cmath>]. *)
Variable pow : double -> double -> double.







(** ** Properties *)


















End Shares.

(** ** At concrete arguments *)





End Subsector.
